(** * gidari, package [storage]: the resolver and the document-store adapter

    A shallow embedding of [internal/storage/storage.go] (the generic
    [Storage] contract with its resolver [New]) and of the MongoDB adapter
    that follows it in the same package ([NewMongo], [Type], [Close],
    [ExecTx], [StartTx], [Read], [TruncateTables], [Upsert]).

    Layout: the model first (module [storage], named after the Go package),
    then the lemmas about it. *)

From Stdlib Require Import String Ascii List Bool Arith ZArith Lia.
Import ListNotations.

Open Scope string_scope.
Open Scope list_scope.

Module storage.

(* ===================================================================== *)
(** ** Go's [strings] package, as far as the resolver uses it *)

(** [strings.HasPrefix s p]. *)
Definition HasPrefix (s p : string) : bool := String.prefix p s.

(** [strings.Contains s substr]: [substr] occurs somewhere within [s]. *)
Fixpoint Contains (s substr : string) : bool :=
  match s with
  | EmptyString => String.prefix substr EmptyString
  | String _ rest => String.prefix substr s || Contains rest substr
  end.

(* ===================================================================== *)
(** ** Errors *)

(** Go's [error] values.  [None : option error] plays the part of [nil]. *)
Inductive error : Type :=
| ErrNotSupported (dns : string)
    (* fmt.Errorf("databse for dns %q is not supported", dns) *)
| ErrTransactionInProgress
    (* the package-level variable of that name *)
| ErrExternal (msg : string).
    (* an error reported by a driver or by caller-supplied code *)

(* ===================================================================== *)
(** ** Backend kinds and schemes *)

(** [MongoType uint8 = iota] and its successor. *)
Definition MongoType : Z := 0.
Definition PostgresType : Z := 1.

(** [Scheme] takes a byte and returns the associated DNS root database
    resource. *)
Definition Scheme (t : Z) : string :=
  if (t =? MongoType)%Z then "mongodb"
  else if (t =? PostgresType)%Z then "postgresql"
  else "unknown".

(* ===================================================================== *)
(** ** The resolver *)

Section Resolver.

(** The driver's client handle and [mongo.Connect] applied to the options
    built from a URI: either a connected client or the driver's error. *)
Variable client : Type.
Variable Connect : string -> client + error.

(** [Mongo] wraps the client; the transaction fields of the struct
    ([txLock], [txCh], [txDoneCh]) are left at their zero values by the
    constructor and are read by no method of the file. *)
Record Mongo : Type := { Client : client; dns : string }.

(** [NewMongo]: connect, then wrap the client with the URI. *)
Definition NewMongo (uri : string) : Mongo + error :=
  match Connect uri with
  | inr err => inr err
  | inl c => inl {| Client := c; dns := uri |}
  end.

(** [(m *Mongo) Type()]. *)
Definition Mongo_Type (m : Mongo) : Z := MongoType.

(** Modelled from the spec: the relational-store adapter is not among the
    sources.  The spec says a backend adapter implements the facade for
    one backend and is built from the connection descriptor. *)
Variable pgconn : Type.
Variable PgConnect : string -> pgconn + error.

Record Postgres : Type := { PgConn : pgconn; pg_dns : string }.

(** Modelled from the spec: [NewPostgres] is not among the sources.  The
    spec says construction of the adapter may itself fail, and that the
    failure is propagated unchanged. *)
Definition NewPostgres (uri : string) : Postgres + error :=
  match PgConnect uri with
  | inr err => inr err
  | inl c => inl {| PgConn := c; pg_dns := uri |}
  end.

(** Modelled from the spec: the relational adapter's [Type()] is not among
    the sources.  The spec says [type()] returns which backend variant the
    facade wraps, document-store or relational-store. *)
Definition Postgres_Type (p : Postgres) : Z := PostgresType.

(** A value of interface type [Storage]: one of the two implementations,
    with [Type()] dispatched on it. *)
Inductive Storage : Type :=
| OfMongo (m : Mongo)
| OfPostgres (p : Postgres).

Definition Type_ (s : Storage) : Z :=
  match s with
  | OfMongo m => Mongo_Type m
  | OfPostgres p => Postgres_Type p
  end.

(** [New] will attempt to return a generic storage object given a DNS. *)
Definition New (dns : string) : Storage + error :=
  if Contains dns (Scheme MongoType) then
    match NewMongo dns with
    | inl m => inl (OfMongo m)
    | inr err => inr err
    end
  else if Contains dns (Scheme PostgresType) then
    match NewPostgres dns with
    | inl p => inl (OfPostgres p)
    | inr err => inr err
    end
  else inr (ErrNotSupported dns).

End Resolver.

Arguments Client {client} _.
Arguments dns {client} _.
Arguments OfMongo {client pgconn} _.
Arguments OfPostgres {client pgconn} _.
Arguments Type_ {client pgconn} _.

(* ===================================================================== *)
(** ** Message types of [pkg/proto], as far as the adapter reads them *)

Section Proto.
(** A generic record ([*structpb.Struct]). *)
Variable Rec : Type.

Record ReadResponse : Type := { ReadResponse_Records : list Rec }.
Record UpsertRequest : Type :=
  { UpsertRequest_Table : string; UpsertRequest_Records : list Rec }.
End Proto.

Arguments ReadResponse_Records {Rec} _.
Arguments UpsertRequest_Table {Rec} _.
Arguments UpsertRequest_Records {Rec} _.

(** [connstring.ConnString], of which only the database name is read. *)
Record ConnString : Type := { Database : string }.

(* ===================================================================== *)
(** ** The driver, seen from the adapter *)

Section Driver.
(** The deployment's state as one client reaches it, and BSON documents. *)
Variable Sess : Type.
Variable Doc : Type.

(** [bson.D{{"$set", doc}}]. *)
Inductive UpdateDoc : Type := SetDoc (doc : Doc).

(** [mongo.NewUpdateOneModel().SetFilter(f).SetUpdate(u).SetUpsert(b)]. *)
Record WriteModel : Type :=
  { Filter : Doc; Update : UpdateDoc; Upsert : bool }.

(** The calls the adapter makes on the client, a session and a
    collection.  Each one maps the state before the call to the state
    after it together with the returned error, if any. *)
Class Driver : Type := {
  StartSession : Sess -> Sess * option error;
  StartTransaction : Sess -> Sess * option error;
  CommitTransaction : Sess -> Sess * option error;
  AbortTransaction : Sess -> Sess * option error;
  EndSession : Sess -> Sess;
  BulkWrite : string -> string -> list WriteModel -> Sess -> Sess * option error
}.
End Driver.

Arguments StartSession {Sess Doc Driver} _.
Arguments StartTransaction {Sess Doc Driver} _.
Arguments CommitTransaction {Sess Doc Driver} _.
Arguments AbortTransaction {Sess Doc Driver} _.
Arguments EndSession {Sess Doc Driver} _.
Arguments BulkWrite {Sess Doc Driver} _ _ _ _.
Arguments SetDoc {Doc} _.
Arguments Filter {Doc} _.
Arguments Update {Doc} _.
Arguments Upsert {Doc} _.

(* ===================================================================== *)
(** ** Effects: a state, trace and blocking monad *)

Section Effects.
Variables Sess Doc Op : Type.

(** What an observer of one run can see, in order. *)
Inductive event : Type :=
| EvStartSession
| EvStartTransaction
| EvCommitTransaction
| EvAbortTransaction
| EvEndSession
| EvBulkWrite (database collection : string) (models : list (WriteModel Doc))
| EvFn                        (* ExecTx ran the caller's function *)
| EvRecv (fn : Op)            (* the worker took fn off tx.Ch *)
| EvCall (fn : Op)            (* fn(sctx) entered *)
| EvRet (fn : Op)             (* fn(sctx) returned *)
| EvRecvCommit (v : bool)     (* <-tx.commit yielded v *)
| EvRecvRollback (v : bool).  (* <-tx.rollback yielded v *)

(** [done] is the buffer of the channel [tx.done] (capacity 1). *)
Record world : Type :=
  { session : Sess; trace : list event; done : list bool }.

(** Where a goroutine can stay blocked for ever. *)
Inductive wait : Type := OnCh | OnCommit | OnRollback | OnDone.

(** A Go function with an [error] result either returns [nil] ([Ok]),
    returns an error ([Fail]), or never returns because a channel
    operation blocks ([Wait]). *)
Inductive result (A : Type) : Type :=
| Ok (a : A)
| Fail (err : error)
| Wait (on : wait).

Definition M (A : Type) : Type := world -> result A * world.

Definition ret {A : Type} (a : A) : M A := fun w => (Ok A a, w).

Definition bind {A B : Type} (m : M A) (k : A -> M B) : M B :=
  fun w =>
    match m w with
    | (Ok _ a, w') => k a w'
    | (Fail _ err, w') => (Fail B err, w')
    | (Wait _ on, w') => (Wait B on, w')
    end.

(** [if err != nil { return err }] after a pure call. *)
Definition lift {A : Type} (r : A + error) : M A :=
  fun w => match r with inl a => (Ok A a, w) | inr err => (Fail A err, w) end.

Definition log (ev : event) (w : world) : world :=
  {| session := session w; trace := trace w ++ [ev]; done := done w |}.

Definition emit (ev : event) : M unit := fun w => (Ok unit tt, log ev w).

(** A driver call that returns an error value. *)
Definition call (ev : event) (p : Sess -> Sess * option error) : M unit :=
  fun w =>
    let (s', r) := p (session w) in
    (match r with None => Ok unit tt | Some err => Fail unit err end,
     {| session := s'; trace := trace w ++ [ev]; done := done w |}).

(** A call whose returned error is dropped (a call statement). *)
Definition discard (m : M unit) : M unit :=
  fun w =>
    match m w with
    | (Fail _ _, w') => (Ok unit tt, w')
    | r => r
    end.

(** [defer cleanup] in a function whose remaining body is [body]: the
    cleanup runs when the body returns, with or without an error, and
    not while it is blocked. *)
Definition defer {A : Type} (cleanup : M unit) (body : M A) : M A :=
  fun w =>
    match body w with
    | (Wait _ on, w') => (Wait A on, w')
    | (r, w') => (r, snd (cleanup w'))
    end.

(** A receive from a channel of [bool]: the value it yields, or nothing
    for ever.  (A receive from a closed channel yields [false].) *)
Definition recv (on : wait) (ev : bool -> event) (c : option bool) : M bool :=
  fun w =>
    match c with
    | None => (Wait bool on, w)
    | Some v => (Ok bool v, log (ev v) w)
    end.
End Effects.

Arguments Ok {A} _.
Arguments Fail {A} _.
Arguments Wait {A} _.
Arguments EvStartSession {Doc Op}.
Arguments EvStartTransaction {Doc Op}.
Arguments EvCommitTransaction {Doc Op}.
Arguments EvAbortTransaction {Doc Op}.
Arguments EvEndSession {Doc Op}.
Arguments EvBulkWrite {Doc Op} _ _ _.
Arguments EvFn {Doc Op}.
Arguments EvRecv {Doc Op} _.
Arguments EvCall {Doc Op} _.
Arguments EvRet {Doc Op} _.
Arguments EvRecvCommit {Doc Op} _.
Arguments EvRecvRollback {Doc Op} _.
Arguments session {Sess Doc Op} _.
Arguments trace {Sess Doc Op} _.
Arguments done {Sess Doc Op} _.
Arguments ret {Sess Doc Op A} _ _.
Arguments bind {Sess Doc Op A B} _ _ _.
Arguments lift {Sess Doc Op A} _ _.
Arguments log {Sess Doc Op} _ _.
Arguments emit {Sess Doc Op} _ _.
Arguments call {Sess Doc Op} _ _ _.
Arguments discard {Sess Doc Op} _ _.
Arguments defer {Sess Doc Op A} _ _ _.
Arguments recv {Sess Doc Op} _ _ _ _.

Declare Scope go_scope.
Delimit Scope go_scope with go.
Notation "x <- m ;; k" := (bind m (fun x => k))
  (at level 61, m at next level, right associativity) : go_scope.
Notation "m ;; k" := (bind m (fun _ => k))
  (at level 61, right associativity) : go_scope.

(* ===================================================================== *)
(** ** The MongoDB adapter *)

Section Adapter.
Variables client Sess Doc Op Rec : Type.
Context {drv : Driver Sess Doc}.

(** A deferred operation [func(context.Context) error] applied to the
    session context. *)
Variable run : Op -> Sess -> Sess * option error.

(** [tools.AssingRecordBSONDocument(record, &doc)] and
    [connstring.ParseAndValidate]: both live outside this package. *)
Variable AssingRecordBSONDocument : Rec -> Doc + error.
Variable ParseAndValidate : string -> ConnString + error.

Local Abbreviation M := (M Sess Doc Op).
Local Abbreviation world := (world Sess Doc Op).
Local Abbreviation Mongo := (Mongo client).
Local Open Scope go_scope.

(** A fresh run: nothing observed yet, [tx.done] just made. *)
Definition fresh (s : Sess) : world :=
  {| session := s; trace := []; done := [] |}.

(** [sess.EndSession(ctx)] returns nothing. *)
Definition end_session : M unit :=
  fun w => (Ok tt, {| session := EndSession (session w);
                      trace := trace w ++ [EvEndSession];
                      done := done w |}).

(** [m.UseSession(ctx, fn)], a method of the embedded client, as the
    driver documents it:
    start a session, pass it to [fn], end the session when [fn] returns,
    and return [fn]'s error. *)
Definition UseSession (fn : M unit) : M unit :=
  call EvStartSession StartSession ;;
  defer end_session fn.

(** [Close] will close the mongo client.  Its body is the single call
    [m.Close()], and the selector resolves to this very method: the
    embedded [*mongo.Client] has no method of that name to promote
    ([Disconnect] is the driver's).  [fuel] bounds the depth of calls a
    run may make; [None] means the call has not returned within it. *)
Fixpoint Mongo_Close (fuel : nat) (m : Mongo) (w : world)
  : option (result unit * world) :=
  match fuel with
  | O => None
  | S fuel' => Mongo_Close fuel' m w
  end.

(** The caller's function of [ExecTx], run on the session. *)
Definition call_fn (fn : Sess -> Sess * (bool * option error)) : M bool :=
  fun w =>
    let '(s', (ok, err)) := fn (session w) in
    (match err with None => Ok ok | Some e => Fail e end,
     {| session := s'; trace := trace w ++ [EvFn]; done := done w |}).

(** [ExecTx] executes a function within a database transaction. *)
Definition Mongo_ExecTx (m : Mongo)
    (fn : Sess -> Sess * (bool * option error)) : M unit :=
  UseSession (
    call EvStartTransaction StartTransaction ;;
    ok <- call_fn fn ;;
    if negb ok then
      call EvAbortTransaction AbortTransaction
    else
      end_session ;;
      ret tt).

(** The channels of a [Tx], seen from the worker: [Ch] lists what the
    producers hand over, in the order the unbuffered channel delivers it,
    and [Ch_closed] tells whether the channel is closed after that;
    [commit] and [rollback] hold the value a receive yields, if one ever
    arrives.  ([tx.done] is written by the worker: it is part of the
    [world].) *)
Record Tx : Type := {
  Ch : list Op;
  Ch_closed : bool;
  commit : option bool;
  rollback : option bool
}.

(** One iteration's body: [if err := fn(sctx); err != nil { return err }]. *)
Definition call_op (fn : Op) : M unit :=
  emit (EvCall fn) ;;
  call (EvRet fn) (run fn).

(** [for fn := range tx.Ch { ... }]: the loop ends when the channel is
    closed and drained, and blocks while it is open and empty. *)
Fixpoint range_Ch (ch : list Op) (closed : bool) : M unit :=
  match ch with
  | [] => if closed then ret tt else (fun w => (Wait OnCh, w))
  | fn :: rest =>
      emit (EvRecv fn) ;;
      call_op fn ;;
      range_Ch rest closed
  end.

(** [tx.done <- true] on a channel of capacity 1. *)
Definition send_done : M unit :=
  fun w =>
    if Nat.ltb (length (done w)) 1
    then (Ok tt, {| session := session w; trace := trace w;
                    done := done w ++ [true] |})
    else (Wait OnDone, w).

(** The expression-less [switch] of the worker: its cases are evaluated
    from the top, each one a receive whose value is compared with [true];
    when none is [true] no branch runs. *)
Definition switch_commit_rollback (tx : Tx) : M unit :=
  v <- recv OnCommit EvRecvCommit (commit tx) ;;
  if v then
    call EvCommitTransaction CommitTransaction
  else
    v' <- recv OnRollback EvRecvRollback (rollback tx) ;;
    if v' then discard (call EvAbortTransaction AbortTransaction)
    else ret tt.

(** [StartTx] returns the handle at once; what is modelled here is the
    function it hands to [tx.Errs.Go], the transaction's worker. *)
Definition Mongo_StartTx (m : Mongo) (tx : Tx) : M unit :=
  UseSession (
    call EvStartTransaction StartTransaction ;;
    range_Ch (Ch tx) (Ch_closed tx) ;;
    switch_commit_rollback tx ;;
    send_done ;;
    ret tt).

(** [Read]: the body is commented out down to [return nil]. *)
Definition Mongo_Read (ReadRequest : Type) (m : Mongo) (req : ReadRequest)
    (rsp : ReadResponse Rec) : M (ReadResponse Rec) :=
  ret rsp.

(** [TruncateTables] returns [nil]. *)
Definition Mongo_TruncateTables (TruncateTablesRequest : Type) (m : Mongo)
    (req : TruncateTablesRequest) : M unit :=
  ret tt.

(** The update-one model built for a document. *)
Definition NewUpdateOneModel (doc : Doc) : WriteModel Doc :=
  {| Filter := doc; Update := SetDoc doc; Upsert := true |}.

(** The loop of [Upsert] over [req.Records], [models] being the slice
    built so far. *)
Fixpoint Upsert_models (models : list (WriteModel Doc)) (records : list Rec)
  : list (WriteModel Doc) + error :=
  match records with
  | [] => inl models
  | record :: rest =>
      match AssingRecordBSONDocument record with
      | inr err => inr err
      | inl doc => Upsert_models (models ++ [NewUpdateOneModel doc]) rest
      end
  end.

(** [Upsert]: build one model per record, parse the database name out of
    the URI, and issue one bulk write.  [rsp] is never written to. *)
Definition Mongo_Upsert (m : Mongo) (req : UpsertRequest Rec) : M unit :=
  models <- lift (Upsert_models [] (UpsertRequest_Records req)) ;;
  cs <- lift (ParseAndValidate (dns m)) ;;
  call (EvBulkWrite (Database cs) (UpsertRequest_Table req) models)
       (BulkWrite (Database cs) (UpsertRequest_Table req) models).

End Adapter.

Arguments fresh {Sess Doc Op} s.
Arguments end_session {Sess Doc Op drv} _.
Arguments UseSession {Sess Doc Op drv} fn _.
Arguments Mongo_Close {client Sess Doc Op} fuel m w.
Arguments call_fn {Sess Doc Op} fn _.
Arguments Mongo_ExecTx {client Sess Doc Op drv} m fn _.
Arguments Ch {Op} _.
Arguments Ch_closed {Op} _.
Arguments commit {Op} _.
Arguments rollback {Op} _.
Arguments call_op {Sess Doc Op} run fn _.
Arguments range_Ch {Sess Doc Op} run ch closed _.
Arguments send_done {Sess Doc Op} _.
Arguments switch_commit_rollback {Sess Doc Op drv} tx _.
Arguments Mongo_StartTx {client Sess Doc Op drv} run m tx _.
Arguments Mongo_Read {client Sess Doc Op Rec ReadRequest} m req rsp _.
Arguments Mongo_TruncateTables {client Sess Doc Op TruncateTablesRequest} m req _.
Arguments NewUpdateOneModel {Doc} doc.
Arguments Upsert_models {Doc Rec} AssingRecordBSONDocument models records.
Arguments Mongo_Upsert {client Sess Doc Op Rec drv}
  AssingRecordBSONDocument ParseAndValidate m req _.

(* ===================================================================== *)
(** ** Reading a trace *)

Section Observations.
Variables Sess Doc Op : Type.
Variable run : Op -> Sess -> Sess * option error.

Local Abbreviation event := (event Doc Op).

(** What the worker logs for one operation it takes off the queue. *)
Definition serve (fn : Op) : list event := [EvRecv fn; EvCall fn; EvRet fn].

Definition is_queue_event (ev : event) : bool :=
  match ev with
  | EvRecv _ | EvCall _ | EvRet _ => true
  | _ => false
  end.

Definition queue_events (t : list event) : list event :=
  filter is_queue_event t.

(** The number of receives from [tx.Ch]. *)
Definition received (t : list event) : nat :=
  length (filter (fun ev => match ev with EvRecv _ => true | _ => false end) t).

(** The number of calls of the commit and abort primitives. *)
Definition terminal_actions (t : list event) : nat :=
  length (filter (fun ev => match ev with
                            | EvCommitTransaction | EvAbortTransaction => true
                            | _ => false
                            end) t).

Definition commits (t : list event) : nat :=
  length (filter (fun ev => match ev with EvCommitTransaction => true | _ => false end) t).

Definition aborts (t : list event) : nat :=
  length (filter (fun ev => match ev with EvAbortTransaction => true | _ => false end) t).

Definition bulk_writes (t : list event) : nat :=
  length (filter (fun ev => match ev with EvBulkWrite _ _ _ => true | _ => false end) t).

(** [exclusive busy t]: along [t], an operation is entered and an item is
    taken off the queue only while no operation is running ([busy] tells
    whether one is running at the start). *)
Fixpoint exclusive (busy : bool) (t : list event) : bool :=
  match t with
  | [] => true
  | EvRecv _ :: t' => negb busy && exclusive busy t'
  | EvCall _ :: t' => negb busy && exclusive true t'
  | EvRet _ :: t' => busy && exclusive false t'
  | _ :: t' => exclusive busy t'
  end.

(** The operations applied one after the other, errors set aside. *)
Definition replay (ops : list Op) (s : Sess) : Sess :=
  fold_left (fun s fn => fst (run fn s)) ops s.

(** [succeed ops s]: run one after the other from [s], the operations all
    return [nil]. *)
Fixpoint succeed (ops : list Op) (s : Sess) : bool :=
  match ops with
  | [] => true
  | fn :: rest =>
      match run fn s with
      | (s', None) => succeed rest s'
      | (_, Some _) => false
      end
  end.

(** How a send on [tx.Ch] ends.  The channel is unbuffered: the send
    completes when the worker receives the item; if the worker never does,
    the sender stays blocked while the channel is open, and panics once it
    is closed. *)
Inductive send_outcome : Type := Delivered | SendBlocks | SendPanics.

(** The fate of send number [k] (from 0) on a channel whose only receiver
    performs [n] receives in all. *)
Definition send_nth (n : nat) (closed : bool) (k : nat) : send_outcome :=
  if Nat.ltb k n then Delivered
  else if closed then SendPanics else SendBlocks.

End Observations.

Arguments serve {Doc Op} fn.
Arguments is_queue_event {Doc Op} ev.
Arguments queue_events {Doc Op} t.
Arguments received {Doc Op} t.
Arguments terminal_actions {Doc Op} t.
Arguments commits {Doc Op} t.
Arguments aborts {Doc Op} t.
Arguments bulk_writes {Doc Op} t.
Arguments exclusive {Doc Op} busy t.
Arguments replay {Sess Op} run ops s.
Arguments succeed {Sess Op} run ops s.

(* ===================================================================== *)
(** ** The paths of the worker *)

Section Paths.
Variables Doc Op : Type.
Local Abbreviation event := (event Doc Op).

(** The trace of a transaction that has started and served [ops], with
    what follows. *)
Definition started (ops : list Op) (tail : list event) : list event :=
  EvStartSession :: EvStartTransaction :: flat_map serve ops ++ tail.

(** [worker_path tx r t d]: one way through the worker of a transaction
    whose channels are [tx], by its outcome [r], its trace [t] and the
    final buffer [d] of [tx.done].  One constructor for each return
    statement and each place where the worker can stay blocked. *)
Inductive worker_path (tx : Tx Op)
  : result unit -> list event -> list bool -> Prop :=
| path_no_session err :
    worker_path tx (Fail err) [EvStartSession] []
| path_no_transaction err :
    worker_path tx (Fail err)
      [EvStartSession; EvStartTransaction; EvEndSession] []
| path_op_failed pre fn rest err :
    Ch tx = pre ++ fn :: rest ->
    worker_path tx (Fail err) (started (pre ++ [fn]) [EvEndSession]) []
| path_queue_open :
    Ch_closed tx = false ->
    worker_path tx (Wait OnCh) (started (Ch tx) []) []
| path_commit_silent :
    Ch_closed tx = true -> commit tx = None ->
    worker_path tx (Wait OnCommit) (started (Ch tx) []) []
| path_committed :
    Ch_closed tx = true -> commit tx = Some true ->
    worker_path tx (Ok tt)
      (started (Ch tx)
         [EvRecvCommit true; EvCommitTransaction; EvEndSession])
      [true]
| path_commit_failed err :
    Ch_closed tx = true -> commit tx = Some true ->
    worker_path tx (Fail err)
      (started (Ch tx)
         [EvRecvCommit true; EvCommitTransaction; EvEndSession])
      []
| path_rollback_silent :
    Ch_closed tx = true -> commit tx = Some false -> rollback tx = None ->
    worker_path tx (Wait OnRollback)
      (started (Ch tx) [EvRecvCommit false]) []
| path_rolled_back :
    Ch_closed tx = true -> commit tx = Some false ->
    rollback tx = Some true ->
    worker_path tx (Ok tt)
      (started (Ch tx)
         [EvRecvCommit false; EvRecvRollback true;
             EvAbortTransaction; EvEndSession])
      [true]
| path_neither :
    Ch_closed tx = true -> commit tx = Some false ->
    rollback tx = Some false ->
    worker_path tx (Ok tt)
      (started (Ch tx)
         [EvRecvCommit false; EvRecvRollback false; EvEndSession])
      [true].

End Paths.

Arguments started {Doc Op} ops tail.
Arguments worker_path {Doc Op} tx _ _ _.

(* ===================================================================== *)
(** ** Producers and the queue *)

Section Queue.
Variable A : Type.

(** [Merge ps q]: [q] is one order in which an unbuffered channel can
    deliver what the producers [ps] send, each producer sending its own
    items one after the other. *)
Inductive Merge : list (list A) -> list A -> Prop :=
| Merge_done ps :
    Forall (fun p => p = []) ps -> Merge ps []
| Merge_send ps1 a p ps2 q :
    Merge (ps1 ++ p :: ps2) q ->
    Merge (ps1 ++ (a :: p) :: ps2) (a :: q).

(** [p'] is what a producer has handed over so far of [p]. *)
Definition sent_of (p' p : list A) : Prop := exists rest, p = p' ++ rest.

(** [subseq l1 l2]: [l1] is [l2] with some items left out, order kept. *)
Inductive subseq : list A -> list A -> Prop :=
| subseq_nil : subseq [] []
| subseq_skip a l1 l2 : subseq l1 l2 -> subseq l1 (a :: l2)
| subseq_take a l1 l2 : subseq l1 l2 -> subseq (a :: l1) (a :: l2).

End Queue.

Arguments Merge {A} _ _.
Arguments Merge_done {A} _ _.
Arguments Merge_send {A} _ _ _ _ _ _.
Arguments sent_of {A} _ _.
Arguments subseq {A} _ _.
Arguments subseq_nil {A}.
Arguments subseq_skip {A} _ _ _ _.
Arguments subseq_take {A} _ _ _ _.

(* ===================================================================== *)
(** ** Further readings of a trace *)

Section Sessions.
Variables Doc Op : Type.

(** The number of times a session was ended. *)
Definition end_sessions (t : list (event Doc Op)) : nat :=
  length (filter (fun ev => match ev with EvEndSession => true | _ => false end) t).

(** The number of times [ExecTx] ran the caller's function. *)
Definition fn_calls (t : list (event Doc Op)) : nat :=
  length (filter (fun ev => match ev with EvFn => true | _ => false end) t).

(** The number of receives from [tx.rollback]. *)
Definition rollback_receives (t : list (event Doc Op)) : nat :=
  length (filter (fun ev => match ev with EvRecvRollback _ => true | _ => false end) t).

End Sessions.

Arguments end_sessions {Doc Op} t.
Arguments fn_calls {Doc Op} t.
Arguments rollback_receives {Doc Op} t.

End storage.

Import storage.

(* ===================================================================== *)
(** * The script [scripts/list-pkgs.sh]

    [list_pkgs <directory>] lists the Go packages below a directory, each
    path rewritten by
    [sed -e "s/^github.com\/alpine-hodler\/gidari/./"]. *)

Module list_pkgs.

(** One position of the basic regular expression: a character that stands
    for itself, or the dot, which matches any single character.  (Lines
    are taken as bytes, as sed does in the C locale.) *)
Inductive atom : Type := Lit (c : ascii) | AnyChar.

(** The expression after [^], matched at the start of a line: what is left
    of the line after the match, if there is one. *)
Fixpoint match_here (re : list atom) (line : string) : option string :=
  match re with
  | [] => Some line
  | a :: re' =>
      match line with
      | EmptyString => None
      | String c rest =>
          match a with
          | AnyChar => match_here re' rest
          | Lit c' => if Ascii.eqb c' c then match_here re' rest else None
          end
      end
  end.

Fixpoint literal (s : string) : list atom :=
  match s with
  | EmptyString => []
  | String c rest => Lit c :: literal rest
  end.

(** [github.com\/alpine-hodler\/gidari]: the slashes are escaped, the dot
    is not. *)
Definition module_re : list atom :=
  literal "github" ++ [AnyChar] ++ literal "com/alpine-hodler/gidari".

(** The [s] command on one line: the first match, anchored at the start,
    is replaced by a dot; a line without a match is printed as it is. *)
Definition sed (line : string) : string :=
  match match_here module_re line with
  | Some rest => String "."%char rest
  | None => line
  end.

(** [directory="$1"], and [.] when that is empty or absent. *)
Definition directory (arg1 : string) : string :=
  match arg1 with
  | EmptyString => "."
  | _ => arg1
  end.

(** The pipeline.  [go_list] is the output of [go list] for the pattern
    [$directory/...], one package path per line.  (The expansion is not
    quoted: what the shell makes of a directory name with blanks in it is
    part of what [go_list] stands for.) *)
Definition list_pkgs (go_list : string -> list string) (arg1 : string)
  : list string :=
  map sed (go_list (directory arg1 ++ "/...")%string).

End list_pkgs.

(* ===================================================================== *)
(** ** A small concrete deployment, for evaluating the model *)

Module demo.

(** Connectors that accept a URI by its scheme, as the drivers do. *)
Definition Connect (uri : string) : unit + error :=
  if HasPrefix uri "mongodb://" || HasPrefix uri "mongodb+srv://"
  then inl tt
  else inr (ErrExternal "error parsing uri: scheme must be mongodb or mongodb+srv").

Definition PgConnect (uri : string) : unit + error :=
  if HasPrefix uri "postgresql://" || HasPrefix uri "postgres://"
  then inl tt
  else inr (ErrExternal "invalid dsn").

(** The deployment holds the documents written so far; documents and
    records are numbers, and record [0] is malformed. *)
Definition Sess : Type := list nat.

Definition Assing (record : nat) : nat + error :=
  if Nat.eqb record 0 then inr (ErrExternal "malformed record") else inl record.

Definition Parse (uri : string) : ConnString + error :=
  inl {| Database := "db" |}.

(** A deferred operation writes its number; operation [0] fails. *)
Definition run (fn : nat) (s : Sess) : Sess * option error :=
  if Nat.eqb fn 0 then (s, Some (ErrExternal "operation failed"))
  else (s ++ [fn], None).

(** A driver whose calls all succeed. *)
Definition healthy : Driver Sess nat := {|
  StartSession := fun s => (s, None);
  StartTransaction := fun s => (s, None);
  CommitTransaction := fun s => (s, None);
  AbortTransaction := fun s => (s, None);
  EndSession := fun s => s;
  BulkWrite := fun _ _ models s => (s ++ map Filter models, None)
|}.

(** The same driver with a commit that fails. *)
Definition commit_fails : Driver Sess nat := {|
  StartSession := fun s => (s, None);
  StartTransaction := fun s => (s, None);
  CommitTransaction := fun s => (s, Some (ErrExternal "commit failed"));
  AbortTransaction := fun s => (s, None);
  EndSession := fun s => s;
  BulkWrite := fun _ _ models s => (s ++ map Filter models, None)
|}.

(** An ordered bulk write without a transaction around it: the models are
    applied one after the other and the first one the deployment refuses
    (here document [13]) ends the call, what was applied before it staying
    applied. *)
Fixpoint ordered_write (models : list (WriteModel nat)) (s : Sess)
  : Sess * option error :=
  match models with
  | [] => (s, None)
  | md :: rest =>
      if Nat.eqb (Filter md) 13
      then (s, Some (ErrExternal "bulk write exception"))
      else ordered_write rest (s ++ [Filter md])
  end.

Definition ordered : Driver Sess nat := {|
  StartSession := fun s => (s, None);
  StartTransaction := fun s => (s, None);
  CommitTransaction := fun s => (s, None);
  AbortTransaction := fun s => (s, None);
  EndSession := fun s => s;
  BulkWrite := fun _ _ models s => ordered_write models s
|}.

(** A bulk write that is all or nothing: it refuses the whole batch when
    it holds document [13]. *)
Definition atomic_write (models : list (WriteModel nat)) (s : Sess)
  : Sess * option error :=
  if existsb (fun md => Nat.eqb (Filter md) 13) models
  then (s, Some (ErrExternal "bulk write exception"))
  else (s ++ map Filter models, None).

Definition atomic : Driver Sess nat := {|
  StartSession := fun s => (s, None);
  StartTransaction := fun s => (s, None);
  CommitTransaction := fun s => (s, None);
  AbortTransaction := fun s => (s, None);
  EndSession := fun s => s;
  BulkWrite := fun _ _ models s => atomic_write models s
|}.

(** A deployment without transactions (a standalone server): a session
    starts, a transaction does not. *)
Definition standalone : Driver Sess nat := {|
  StartSession := fun s => (s, None);
  StartTransaction := fun s => (s, Some (ErrExternal "transactions are not supported"));
  CommitTransaction := fun s => (s, None);
  AbortTransaction := fun s => (s, None);
  EndSession := fun s => s;
  BulkWrite := fun _ _ models s => (s ++ map Filter models, None)
|}.

(** A deployment that cannot be reached: no session starts. *)
Definition unreachable : Driver Sess nat := {|
  StartSession := fun s => (s, Some (ErrExternal "server selection timeout"));
  StartTransaction := fun s => (s, None);
  CommitTransaction := fun s => (s, None);
  AbortTransaction := fun s => (s, None);
  EndSession := fun s => s;
  BulkWrite := fun _ _ models s => (s ++ map Filter models, None)
|}.

(** A deployment whose abort fails, and drops what the transaction wrote
    all the same. *)
Definition abort_fails : Driver Sess nat := {|
  StartSession := fun s => (s, None);
  StartTransaction := fun s => (s, None);
  CommitTransaction := fun s => (s, None);
  AbortTransaction := fun s => ([], Some (ErrExternal "abort failed"));
  EndSession := fun s => s;
  BulkWrite := fun _ _ models s => (s ++ map Filter models, None)
|}.

(** A URI parser that refuses every URI. *)
Definition Parse_fails (uri : string) : ConnString + error :=
  inr (ErrExternal "error parsing uri").

(** [go list] on a tree of three packages. *)
Definition go_list (pattern : string) : list string :=
  ["github.com/alpine-hodler/gidari";
   "github.com/alpine-hodler/gidari/internal/storage";
   "github.com/alpine-hodler/gidari/tools"].

(** A query that matches every document of the deployment. *)
Definition find_all (s : Sess) (req : unit) : list nat + error := inl s.

Definition mongo : Mongo unit := {| Client := tt; dns := "mongodb://localhost:27017/db" |}.

End demo.

(* ===================================================================== *)
(** ** The claims that the code does not meet, as they are worded *)

(** C6 as the claim words it: the scheme of the descriptor decides, the
    connection itself succeeding. *)
Definition New_by_scheme : Prop :=
  forall (client : Type) (Connect : string -> client + error)
         (pgconn : Type) (PgConnect : string -> pgconn + error)
         (dns : string),
    (HasPrefix dns "mongodb://" = true ->
     (exists c, Connect dns = inl c) ->
       exists st, New client Connect pgconn PgConnect dns = inl st
                  /\ Type_ st = MongoType)
    /\ (HasPrefix dns "postgresql://" = true ->
        (exists p, PgConnect dns = inl p) ->
          exists st, New client Connect pgconn PgConnect dns = inl st
                     /\ Type_ st = PostgresType)
    /\ (HasPrefix dns "mongodb://" = false ->
        HasPrefix dns "postgresql://" = false ->
          New client Connect pgconn PgConnect dns = inr (ErrNotSupported dns)).

(** C3 as the claim words it: whenever the worker returns, with [nil] or
    with an error, [tx.done] has received one value. *)
Definition done_fires_on_every_return : Prop :=
  forall (client Sess Doc Op : Type) (drv : Driver Sess Doc)
         (run : Op -> Sess -> Sess * option error)
         (m : Mongo client) (tx : Tx Op) (s : Sess),
    (fst (Mongo_StartTx run m tx (fresh s)) = Ok tt
     \/ exists err, fst (Mongo_StartTx run m tx (fresh s)) = Fail err) ->
    length (done (snd (Mongo_StartTx run m tx (fresh s)))) = 1.

(** C5 as the claim words it: after the worker has returned, a further
    send does not block. *)
Definition submission_after_exit_fails_fast : Prop :=
  forall (client Sess Doc Op : Type) (drv : Driver Sess Doc)
         (run : Op -> Sess -> Sess * option error)
         (m : Mongo client) (tx : Tx Op) (s : Sess) (k : nat),
    (fst (Mongo_StartTx run m tx (fresh s)) = Ok tt
     \/ exists err, fst (Mongo_StartTx run m tx (fresh s)) = Fail err) ->
    received (trace (snd (Mongo_StartTx run m tx (fresh s)))) <= k ->
    send_nth (received (trace (snd (Mongo_StartTx run m tx (fresh s)))))
             (Ch_closed tx) k
    <> SendBlocks.

(** C8 as the claim words it, [find] being the backend's query: the
    matching records are added to the response, and a failure of the
    query is returned. *)
Definition Read_returns_matches : Prop :=
  forall (client Sess Doc Op Rec Req : Type)
         (find : Sess -> Req -> list Rec + error)
         (m : Mongo client) (req : Req) (rsp : ReadResponse Rec)
         (w : world Sess Doc Op),
    match find (session w) req with
    | inl recs =>
        fst (Mongo_Read m req rsp w)
        = Ok {| ReadResponse_Records := ReadResponse_Records rsp ++ recs |}
    | inr err => fst (Mongo_Read m req rsp w) = Fail err
    end.

(** C9 as the claim words it: a failed upsert leaves none of the records
    applied. *)
Definition Upsert_failure_applies_nothing : Prop :=
  forall (client Sess Doc Op Rec : Type) (drv : Driver Sess Doc)
         (Assing : Rec -> Doc + error) (Parse : string -> ConnString + error)
         (m : Mongo client) (req : UpsertRequest Rec) (w : world Sess Doc Op)
         (err : error),
    fst (Mongo_Upsert Assing Parse m req w) = Fail err ->
    session (snd (Mongo_Upsert Assing Parse m req w)) = session w.

(* ===================================================================== *)
(** * Part II: properties *)

(** ** Strings *)

Section StringFacts.
Local Open Scope string_scope.

Lemma prefix_app (p s : string) :
  String.prefix p s = true <-> exists rest, s = p ++ rest.
Proof.
  revert s; induction p as [|a p IH]; intros s; simpl.
  - split; [intros _; now exists s | intros _; now destruct s].
  - destruct s as [|b s]; simpl.
    + split; [discriminate | intros [rest H]; discriminate].
    + destruct (Ascii.ascii_dec a b) as [->|Hne].
      * rewrite IH. split; intros [rest H]; exists rest; [now subst | now inversion H].
      * split; [discriminate | intros [rest H]; inversion H; subst; now elim Hne].
Qed.

(** [Contains] finds exactly the substrings. *)
Lemma Contains_spec (s sub : string) :
  Contains s sub = true <-> exists a b, s = a ++ sub ++ b.
Proof.
  induction s as [|c s IH]; cbn [Contains].
  - rewrite prefix_app. split.
    + intros [rest H]. exists "", rest. exact H.
    + intros [a [b H]]. destruct a; simpl in H; [now exists b | discriminate].
  - rewrite orb_true_iff, IH, prefix_app. split.
    + intros [[rest H] | [a [b H]]].
      * exists "", rest. exact H.
      * exists (String c a), b. simpl. now rewrite H.
    + intros [a [b H]]. destruct a as [|c' a]; simpl in H.
      * left. now exists b.
      * right. inversion H. now exists a, b.
Qed.

(** A descriptor that starts with a scheme token contains it. *)
Lemma scheme_prefix_Contains (dns sch : string) :
  HasPrefix dns (sch ++ "://") = true -> Contains dns sch = true.
Proof.
  unfold HasPrefix. rewrite prefix_app, Contains_spec.
  intros [rest H]. exists "", ("://" ++ rest). simpl. rewrite H.
  clear H. induction sch; simpl; [reflexivity | now rewrite IHsch].
Qed.

End StringFacts.

(* ===================================================================== *)
(** ** The resolver *)


Section ResolverFacts.
Variable client : Type.
Variable Connect : string -> client + error.
Variable pgconn : Type.
Variable PgConnect : string -> pgconn + error.

Local Abbreviation New := (New client Connect pgconn PgConnect).
Local Abbreviation NewMongo := (NewMongo client Connect).
Local Abbreviation NewPostgres := (NewPostgres pgconn PgConnect).

Lemma New_mongo (dns : string) :
  Contains dns "mongodb" = true ->
  New dns = match NewMongo dns with
            | inl m => inl (OfMongo m)
            | inr err => inr err
            end.
Proof.
  intros H. unfold storage.New. change (Scheme MongoType) with "mongodb".
  now rewrite H.
Qed.

Lemma New_postgres (dns : string) :
  Contains dns "mongodb" = false ->
  Contains dns "postgresql" = true ->
  New dns = match NewPostgres dns with
            | inl p => inl (OfPostgres p)
            | inr err => inr err
            end.
Proof.
  intros Hm Hp. unfold storage.New.
  change (Scheme MongoType) with "mongodb".
  change (Scheme PostgresType) with "postgresql".
  now rewrite Hm, Hp.
Qed.

Lemma New_unsupported (dns : string) :
  Contains dns "mongodb" = false ->
  Contains dns "postgresql" = false ->
  New dns = inr (ErrNotSupported dns).
Proof.
  intros Hm Hp. unfold storage.New.
  change (Scheme MongoType) with "mongodb".
  change (Scheme PostgresType) with "postgresql".
  now rewrite Hm, Hp.
Qed.

End ResolverFacts.

(** C6, as amended.  [New] resolves by substring, the document store
    first: a descriptor that contains [mongodb] anywhere goes to
    [NewMongo], and a facade it returns is of [MongoType]; failing that, a
    descriptor that contains [postgresql] goes to [NewPostgres], and a
    facade it returns is of [PostgresType]; a descriptor with neither
    token gets the not-supported error and nothing is constructed.  A
    descriptor that starts with [mongodb://] or [postgresql://] contains
    its token. *)
Theorem New_resolves_by_substring :
  forall (client : Type) (Connect : string -> client + error)
         (pgconn : Type) (PgConnect : string -> pgconn + error)
         (dns : string),
    (Contains dns "mongodb" = true ->
       New client Connect pgconn PgConnect dns
         = match NewMongo client Connect dns with
           | inl m => inl (OfMongo m)
           | inr err => inr err
           end
       /\ forall st, New client Connect pgconn PgConnect dns = inl st ->
                     Type_ st = MongoType)
    /\ (Contains dns "mongodb" = false ->
        Contains dns "postgresql" = true ->
          New client Connect pgconn PgConnect dns
            = match NewPostgres pgconn PgConnect dns with
              | inl p => inl (OfPostgres p)
              | inr err => inr err
              end
          /\ forall st, New client Connect pgconn PgConnect dns = inl st ->
                        Type_ st = PostgresType)
    /\ (Contains dns "mongodb" = false ->
        Contains dns "postgresql" = false ->
          New client Connect pgconn PgConnect dns = inr (ErrNotSupported dns))
    /\ (HasPrefix dns "mongodb://" = true -> Contains dns "mongodb" = true)
    /\ (HasPrefix dns "postgresql://" = true ->
          Contains dns "postgresql" = true).
Proof.
  intros client Connect pgconn PgConnect dns.
  split; [|split; [|split; [|split]]].
  - intros H. rewrite (New_mongo _ _ _ _ _ H). split; [reflexivity|].
    intros st. destruct (NewMongo client Connect dns); intros E; inversion E.
    reflexivity.
  - intros Hm Hp. rewrite (New_postgres _ _ _ _ _ Hm Hp). split; [reflexivity|].
    intros st. destruct (NewPostgres pgconn PgConnect dns); intros E; inversion E.
    reflexivity.
  - apply New_unsupported.
  - apply (scheme_prefix_Contains dns "mongodb").
  - apply (scheme_prefix_Contains dns "postgresql").
Qed.

(** The three descriptors of the spec's example, with connectors that
    accept a URI by its scheme. *)
Example New_mongodb_uri :
  exists st, New unit demo.Connect unit demo.PgConnect "mongodb://localhost:27017/db" = inl st
             /\ Type_ st = MongoType.
Proof. eexists; split; reflexivity. Qed.

Example New_postgresql_uri :
  exists st, New unit demo.Connect unit demo.PgConnect "postgresql://localhost:5432/db" = inl st
             /\ Type_ st = PostgresType.
Proof. eexists; split; reflexivity. Qed.

Example New_redis_uri :
  New unit demo.Connect unit demo.PgConnect "redis://localhost:6379"
  = inr (ErrNotSupported "redis://localhost:6379").
Proof. reflexivity. Qed.

(** C6, counterexample.  A relational descriptor whose host name contains
    [mongodb] is handed to [NewMongo], so no relational facade comes out
    of it; and a [redis://] descriptor with such a host is handed to
    [NewMongo] too, instead of being refused by the resolver. *)
Lemma New_by_scheme_fails :
  New unit demo.Connect unit demo.PgConnect "postgresql://mongodb-1:5432/db"
    = inr (ErrExternal "error parsing uri: scheme must be mongodb or mongodb+srv")
  /\ New unit demo.Connect unit demo.PgConnect "redis://mongodb-1:6379"
    <> inr (ErrNotSupported "redis://mongodb-1:6379")
  /\ ~ New_by_scheme.
Proof.
  split; [reflexivity|]. split; [discriminate|].
  intros H.
  destruct (H unit demo.Connect unit demo.PgConnect
              "postgresql://mongodb-1:5432/db") as [_ [Hp _]].
  destruct Hp as [st [E _]]; [reflexivity | now exists tt | discriminate E].
Qed.

(* ===================================================================== *)
(** ** The queue: merges and their prefixes *)

Lemma sent_of_nil {A : Type} (p : list A) : sent_of [] p.
Proof. now exists p. Qed.

Lemma sent_of_refl {A : Type} (p : list A) : sent_of p p.
Proof. exists []. now rewrite app_nil_r. Qed.

Lemma sent_of_cons {A : Type} (a : A) (p' p : list A) :
  sent_of p' p -> sent_of (a :: p') (a :: p).
Proof. intros [rest ->]. now exists rest. Qed.

Lemma Merge_nil {A : Type} (ps : list (list A)) :
  @Merge A (map (fun _ => []) ps) [].
Proof.
  apply Merge_done. induction ps; simpl; constructor; auto.
Qed.

Lemma Forall2_sent_of_nil {A : Type} (ps : list (list A)) :
  Forall2 sent_of (map (fun _ => @nil A) ps) ps.
Proof.
  induction ps; simpl; constructor; auto using sent_of_nil.
Qed.

(** What has been delivered at any moment is itself a merge of what each
    producer has handed over so far. *)
Lemma Merge_prefix {A : Type} (ps : list (list A)) (q : list A) :
  Merge ps q ->
  forall q1 q2, q = q1 ++ q2 ->
  exists ps', Merge ps' q1 /\ Forall2 sent_of ps' ps.
Proof.
  induction 1 as [ps Hnil | ps1 a p ps2 q HM IH]; intros q1 q2 Hq.
  - destruct q1; [|discriminate].
    exists (map (fun _ => []) ps). split.
    + apply Merge_nil.
    + apply Forall2_sent_of_nil.
  - destruct q1 as [|b q1].
    + exists (map (fun _ => []) (ps1 ++ (a :: p) :: ps2)). split.
      * apply Merge_nil.
      * apply Forall2_sent_of_nil.
    + simpl in Hq. inversion Hq; subst b q.
      destruct (IH q1 q2 eq_refl) as [ps' [HM' HF]].
      apply Forall2_app_inv_r in HF.
      destruct HF as [l1 [l2 [HF1 [HF2 ->]]]].
      inversion HF2 as [|p' ? l2' ? Hp HF2']; subst.
      exists (l1 ++ (a :: p') :: l2'). split.
      * now apply Merge_send.
      * apply Forall2_app; [assumption|].
        constructor; [now apply sent_of_cons | assumption].
Qed.

(** A merge keeps each producer's own order: the items of one producer
    form a subsequence of the merge, in the order they were sent. *)

Lemma subseq_nil_l {A : Type} (l : list A) : subseq [] l.
Proof. induction l; constructor; auto. Qed.

Lemma Merge_subseq {A : Type} (ps : list (list A)) (q : list A) :
  Merge ps q -> forall p, In p ps -> subseq p q.
Proof.
  induction 1 as [ps Hnil | ps1 a p0 ps2 q HM IH]; intros p Hin.
  - rewrite Forall_forall in Hnil. rewrite (Hnil p Hin). constructor.
  - apply in_app_or in Hin. destruct Hin as [Hin | [<- | Hin]].
    + apply subseq_skip, IH, in_or_app. now left.
    + apply subseq_take, IH, in_or_app. right. now left.
    + apply subseq_skip, IH, in_or_app. right. now right.
Qed.

(* ===================================================================== *)
(** ** Traces of served operations *)

Section TraceFacts.
Variables Doc Op : Type.
Local Abbreviation event := (event Doc Op).

Lemma queue_events_app (t1 t2 : list event) :
  queue_events (t1 ++ t2) = queue_events t1 ++ queue_events t2.
Proof. apply filter_app. Qed.

Lemma queue_events_serve (ops : list Op) :
  queue_events (flat_map (@serve Doc Op) ops) = flat_map serve ops.
Proof. induction ops; simpl; [reflexivity | now rewrite IHops]. Qed.

Lemma received_app (t1 t2 : list event) :
  received (t1 ++ t2) = received t1 + received t2.
Proof. unfold received. now rewrite filter_app, length_app. Qed.

Lemma received_serve (ops : list Op) :
  received (flat_map (@serve Doc Op) ops) = length ops.
Proof. unfold received. induction ops; simpl; [reflexivity | now rewrite IHops]. Qed.

Lemma terminal_actions_app (t1 t2 : list event) :
  terminal_actions (t1 ++ t2) = terminal_actions t1 + terminal_actions t2.
Proof. unfold terminal_actions. now rewrite filter_app, length_app. Qed.

Lemma terminal_actions_serve (ops : list Op) :
  terminal_actions (flat_map (@serve Doc Op) ops) = 0.
Proof. unfold terminal_actions. induction ops; simpl; [reflexivity | exact IHops]. Qed.

Lemma aborts_app (t1 t2 : list event) :
  aborts (t1 ++ t2) = aborts t1 + aborts t2.
Proof. unfold aborts. now rewrite filter_app, length_app. Qed.

Lemma aborts_serve (ops : list Op) :
  aborts (flat_map (@serve Doc Op) ops) = 0.
Proof. unfold aborts. induction ops; simpl; [reflexivity | exact IHops]. Qed.

Lemma commits_app (t1 t2 : list event) :
  commits (t1 ++ t2) = commits t1 + commits t2.
Proof. unfold commits. now rewrite filter_app, length_app. Qed.

Lemma commits_serve (ops : list Op) :
  commits (flat_map (@serve Doc Op) ops) = 0.
Proof. unfold commits. induction ops; simpl; [reflexivity | exact IHops]. Qed.

(** Serving operations one after the other never overlaps two of them,
    and leaves no operation running for what follows. *)
Lemma exclusive_serve (ops : list Op) (t : list event) :
  exclusive false (flat_map serve ops ++ t) = exclusive false t.
Proof. induction ops; simpl; [reflexivity | exact IHops]. Qed.

End TraceFacts.

Create Rewrite HintDb trace_count.
#[export] Hint Rewrite queue_events_app queue_events_serve received_app
  received_serve terminal_actions_app terminal_actions_serve aborts_app
  aborts_serve commits_app commits_serve exclusive_serve : trace_count.

(* ===================================================================== *)
(** ** The worker's loop *)

Section LoopFacts.
Variables Sess Doc Op : Type.
Variable run : Op -> Sess -> Sess * option error.
Local Abbreviation world := (world Sess Doc Op).

(** The loop serves a prefix of the queue, in order, each operation on the
    state its predecessor left; it ends on the first error, on a closed and
    drained queue, or blocked on an open and empty one. *)
Lemma range_Ch_spec (q : list Op) (closed : bool) (w : world) :
  exists executed rest,
    q = executed ++ rest
    /\ trace (snd (range_Ch run q closed w))
       = trace w ++ flat_map serve executed
    /\ done (snd (range_Ch run q closed w)) = done w
    /\ session (snd (range_Ch run q closed w))
       = replay run executed (session w)
    /\ match fst (range_Ch run q closed w) with
       | Ok _ => rest = [] /\ closed = true
       | Wait on => on = OnCh /\ rest = [] /\ closed = false
       | Fail err =>
           exists pre fn, executed = pre ++ [fn]
             /\ snd (run fn (replay run pre (session w))) = Some err
       end.
Proof.
  revert w. induction q as [|fn q IH]; intros w.
  - exists [], []. simpl. rewrite app_nil_r.
    destruct closed; simpl; repeat split; reflexivity.
  - cbn [range_Ch]. unfold bind at 1. unfold emit at 1.
    unfold bind at 1. unfold call_op, bind, emit, call. cbn [session trace done log].
    destruct (run fn (session w)) as [s' [err|]] eqn:Hrun.
    + exists [fn], q. cbn. rewrite <- !app_assoc. cbn.
      repeat split; try reflexivity.
      * now rewrite Hrun.
      * exists [], fn. cbn. now rewrite Hrun.
    + match goal with |- context [range_Ch run q closed ?w1] =>
        specialize (IH w1); destruct (range_Ch run q closed w1) as [r wl]
      end.
      destruct IH as [executed [rest [Hq [Ht [Hd [Hs Hr]]]]]].
      cbn [session trace done fst snd] in *.
      exists (fn :: executed), rest. rewrite Hq.
      destruct r as [[]|err|on]; cbn [fst snd]; rewrite Ht, Hd, Hs;
        rewrite <- !app_assoc; cbn; rewrite Hrun; cbn;
        repeat split; try reflexivity; try apply Hr.
      destruct Hr as [pre [fn' [Hex Herr]]].
      exists (fn :: pre), fn'. rewrite Hex. cbn. rewrite Hrun. cbn.
      split; [reflexivity | exact Herr].
Qed.

(** Operations that succeed are served and the loop goes on with what
    follows them. *)
Lemma range_Ch_app (pre q : list Op) (closed : bool) (w : world) :
  succeed run pre (session w) = true ->
  range_Ch run (pre ++ q) closed w
  = range_Ch run q closed
      {| session := replay run pre (session w);
         trace := trace w ++ flat_map serve pre;
         done := done w |}.
Proof.
  revert w. induction pre as [|fn pre IH]; intros w H.
  - cbn. rewrite app_nil_r. now destruct w.
  - cbn [succeed] in H. cbn [app range_Ch].
    unfold bind at 1. unfold emit at 1.
    unfold bind at 1. unfold call_op, bind, emit, call.
    cbn [session trace done log].
    destruct (run fn (session w)) as [s' [err|]] eqn:Hrun; [discriminate|].
    rewrite IH by exact H. cbn [session trace done].
    cbn [replay fold_left flat_map serve]. rewrite Hrun. cbn [fst].
    now rewrite <- !app_assoc.
Qed.

End LoopFacts.

(* ===================================================================== *)
(** ** The worker of [StartTx] *)

(** Unfolds the worker down to the driver calls and the loop. *)
Ltac unfold_worker :=
  unfold Mongo_StartTx, UseSession, switch_commit_rollback, send_done,
    end_session, defer, discard, recv, bind, call, ret, emit, log, fresh;
  cbn [session trace done fst snd app].

(** Splits on the outcome of the next driver call of the goal. *)
Ltac driver_call :=
  match goal with
  | |- context [StartSession ?s] =>
      destruct (StartSession s) as [? [?|]] eqn:?
  | |- context [StartTransaction ?s] =>
      destruct (StartTransaction s) as [? [?|]] eqn:?
  | |- context [CommitTransaction ?s] =>
      destruct (CommitTransaction s) as [? [?|]] eqn:?
  | |- context [AbortTransaction ?s] =>
      destruct (AbortTransaction s) as [? [?|]] eqn:?
  end; cbn [session trace done fst snd app].

Section WorkerFacts.
Variables client Sess Doc Op : Type.
Context {drv : Driver Sess Doc}.
Variable run : Op -> Sess -> Sess * option error.
Local Abbreviation world := (world Sess Doc Op).
Local Abbreviation worker := (@Mongo_StartTx client Sess Doc Op drv run).

(** Every run of the worker on a fresh world takes one of the paths. *)
Lemma worker_follows_path (m : Mongo client) (tx : Tx Op) (s : Sess) :
  worker_path tx (fst (worker m tx (fresh s)))
                 (trace (snd (worker m tx (fresh s))))
                 (done (snd (worker m tx (fresh s)))).
Proof.
  unfold_worker.
  driver_call; [apply path_no_session|].
  driver_call; [apply path_no_transaction|].
  match goal with |- context [range_Ch run ?q ?c ?w1] =>
    destruct (range_Ch_spec _ _ _ run q c w1)
      as [ex [rest [Hq [Ht [Hd [_ Hr]]]]]];
    destruct (range_Ch run q c w1) as [[[]|err|on] wl]
  end; cbn [session trace done fst snd] in *.
  - destruct Hr as [-> Hc]. rewrite app_nil_r in Hq. subst ex.
    destruct (commit tx) as [[|]|] eqn:Hcommit; cbn [session trace done fst snd].
    + driver_call; rewrite ?Hd, Ht; cbn [length Nat.ltb Nat.leb fst snd done trace];
        rewrite <- ?app_assoc.
      * now apply path_commit_failed.
      * now apply path_committed.
    + destruct (rollback tx) as [[|]|] eqn:Hrollback;
        cbn [session trace done fst snd].
      * driver_call; rewrite ?Hd, Ht;
          cbn [length Nat.ltb Nat.leb fst snd done trace];
          rewrite <- ?app_assoc; now apply path_rolled_back.
      * rewrite ?Hd, Ht. cbn [length Nat.ltb Nat.leb fst snd done trace].
        rewrite <- ?app_assoc. now apply path_neither.
      * rewrite Hd, Ht. now apply path_rollback_silent.
    + rewrite Hd, Ht. rewrite <- (app_nil_r (flat_map serve (Ch tx))).
      now apply path_commit_silent.
  - destruct Hr as [pre [fn [-> _]]]. rewrite Hd, Ht.
    apply path_op_failed with (rest := rest).
    now rewrite Hq, <- app_assoc.
  - destruct Hr as [-> [-> Hc]]. rewrite app_nil_r in Hq. subst ex.
    rewrite Hd, Ht. rewrite <- (app_nil_r (flat_map serve (Ch tx))).
    now apply path_queue_open.
Qed.

(** Takes a run of the worker apart along the path it follows. *)
Ltac by_path m tx s :=
  let P := fresh "P" in
  pose proof (worker_follows_path m tx s) as P;
  destruct (worker m tx (fresh s)) as [r w'];
  cbn [fst snd] in *;
  inversion P; subst; clear P.

Lemma exclusive_started (ops : list Op) (t : list (event Doc Op)) :
  exclusive false
    (EvStartSession :: EvStartTransaction :: flat_map serve ops ++ t)
  = exclusive false t.
Proof. cbn [exclusive]. apply exclusive_serve. Qed.

Lemma queue_events_started (ops : list Op) (t : list (event Doc Op)) :
  queue_events
    (EvStartSession :: EvStartTransaction :: flat_map serve ops ++ t)
  = flat_map serve ops ++ queue_events t.
Proof.
  change (queue_events (EvStartSession :: EvStartTransaction
                          :: flat_map serve ops ++ t))
    with (queue_events (flat_map (@serve Doc Op) ops ++ t)).
  now autorewrite with trace_count.
Qed.

Lemma aborts_started (ops : list Op) (t : list (event Doc Op)) :
  aborts (EvStartSession :: EvStartTransaction :: flat_map serve ops ++ t)
  = aborts t.
Proof.
  change (aborts (EvStartSession :: EvStartTransaction
                    :: flat_map serve ops ++ t))
    with (aborts (flat_map (@serve Doc Op) ops ++ t)).
  now autorewrite with trace_count.
Qed.

Lemma commits_started (ops : list Op) (t : list (event Doc Op)) :
  commits (EvStartSession :: EvStartTransaction :: flat_map serve ops ++ t)
  = commits t.
Proof.
  change (commits (EvStartSession :: EvStartTransaction
                     :: flat_map serve ops ++ t))
    with (commits (flat_map (@serve Doc Op) ops ++ t)).
  now autorewrite with trace_count.
Qed.

Lemma terminal_actions_started (ops : list Op) (t : list (event Doc Op)) :
  terminal_actions
    (EvStartSession :: EvStartTransaction :: flat_map serve ops ++ t)
  = terminal_actions t.
Proof.
  change (terminal_actions (EvStartSession :: EvStartTransaction
                              :: flat_map serve ops ++ t))
    with (terminal_actions (flat_map (@serve Doc Op) ops ++ t)).
  now autorewrite with trace_count.
Qed.

Lemma received_started (ops : list Op) (t : list (event Doc Op)) :
  received (EvStartSession :: EvStartTransaction :: flat_map serve ops ++ t)
  = length ops + received t.
Proof.
  change (received (EvStartSession :: EvStartTransaction
                      :: flat_map serve ops ++ t))
    with (received (flat_map (@serve Doc Op) ops ++ t)).
  now autorewrite with trace_count.
Qed.


(** X1.  The worker calls the commit and abort primitives at most once
    between them, whatever the channels deliver. *)
Lemma worker_one_terminal_action (m : Mongo client) (tx : Tx Op) (s : Sess) :
  terminal_actions (trace (snd (worker m tx (fresh s)))) <= 1.
Proof.
  by_path m tx s; unfold started;
    rewrite ?terminal_actions_started; cbn; lia.
Qed.

(** C2, the divergence.  With the queue closed, a rollback signal waiting
    in [tx.rollback] and nothing ever sent on [tx.commit], the worker does
    not call the abort primitive and does not signal completion: unless an
    earlier step has failed, it stays blocked on [tx.commit], the first
    case of its [switch]. *)
Theorem rollback_alone_is_not_honoured (m : Mongo client) (tx : Tx Op)
    (s : Sess) :
  Ch_closed tx = true ->
  commit tx = None ->
  rollback tx = Some true ->
  aborts (trace (snd (worker m tx (fresh s)))) = 0
  /\ done (snd (worker m tx (fresh s))) = []
  /\ (fst (worker m tx (fresh s)) = Wait OnCommit
      \/ exists err, fst (worker m tx (fresh s)) = Fail err).
Proof.
  intros Hclosed Hcommit Hrollback.
  by_path m tx s; try congruence;
    (split; [|split; [reflexivity|]]);
    try (right; now eexists); try (now left).
  all: unfold started; now rewrite ?aborts_started.
Qed.

(** C3, as amended.  A value is put on [tx.done] at most once; it is put
    there exactly when the worker returns [nil], and never when the worker
    returns an error or stays blocked. *)
Theorem done_fires_once_iff_nil (m : Mongo client) (tx : Tx Op) (s : Sess) :
  length (done (snd (worker m tx (fresh s)))) <= 1
  /\ (done (snd (worker m tx (fresh s))) = [true]
      <-> fst (worker m tx (fresh s)) = Ok tt)
  /\ (done (snd (worker m tx (fresh s))) = []
      <-> fst (worker m tx (fresh s)) <> Ok tt)
  /\ (forall err, fst (worker m tx (fresh s)) = Fail err ->
        done (snd (worker m tx (fresh s))) = []).
Proof.
  by_path m tx s;
    cbn [length];
    (split; [lia|]);
    (split; [split; intros; first [reflexivity | discriminate]|]);
    (split; [split; intros H'; first [reflexivity | discriminate
                                      | now elim H']|]);
    intros e He; first [reflexivity | discriminate].
Qed.

(** C4.  Once the transaction has started, if the operations [pre] return
    [nil] and the next one, [fn], returns [err], the worker returns [err]:
    it has served [pre] and [fn] and nothing that was queued behind them,
    it has received from neither [tx.commit] nor [tx.rollback], and this
    does not depend on whether a signal was sent, on the rest of the queue
    or on the queue being closed. *)
Theorem worker_returns_first_error (m : Mongo client)
    (pre : list Op) (fn : Op) (post : list Op) (closed : bool)
    (c r : option bool) (s s0 s1 : Sess) (err : error) :
  StartSession s = (s0, None) ->
  StartTransaction s0 = (s1, None) ->
  succeed run pre s1 = true ->
  snd (run fn (replay run pre s1)) = Some err ->
  fst (worker m {| Ch := pre ++ fn :: post; Ch_closed := closed;
                   commit := c; rollback := r |} (fresh s))
    = Fail err
  /\ trace (snd (worker m {| Ch := pre ++ fn :: post; Ch_closed := closed;
                             commit := c; rollback := r |} (fresh s)))
     = started (pre ++ [fn]) [EvEndSession]
  /\ done (snd (worker m {| Ch := pre ++ fn :: post; Ch_closed := closed;
                            commit := c; rollback := r |} (fresh s)))
     = [].
Proof.
  intros HS HT Hpre Hfn.
  unfold_worker. rewrite HS. cbn [session trace done fst snd app].
  rewrite HT. cbn [session trace done fst snd app Ch Ch_closed].
  rewrite range_Ch_app by exact Hpre.
  cbn [range_Ch session trace done].
  unfold bind at 1. unfold emit at 1. unfold bind at 1.
  unfold call_op, bind, emit, call. cbn [session trace done log].
  destruct (run fn (replay run pre s1)) as [s2 [e|]]; cbn [snd] in Hfn;
    [|discriminate].
  inversion Hfn; subst e. cbn [fst snd session trace done].
  repeat split.
  unfold started. rewrite flat_map_app. cbn.
  now rewrite <- !app_assoc.
Qed.

(** The items the worker has taken off the queue are the first ones, and
    they are the ones it has run. *)
Lemma worker_received (m : Mongo client) (tx : Tx Op) (s : Sess) :
  received (trace (snd (worker m tx (fresh s)))) <= length (Ch tx)
  /\ queue_events (trace (snd (worker m tx (fresh s))))
     = flat_map serve
         (firstn (received (trace (snd (worker m tx (fresh s))))) (Ch tx)).
Proof.
  by_path m tx s; unfold started;
    rewrite ?received_started, ?queue_events_started; cbn;
    rewrite ?Nat.add_0_r, ?app_nil_r, ?firstn_all;
    try (split; [lia | reflexivity]).
  match goal with H : Ch tx = _ |- _ => rewrite H end.
  change (pre ++ fn :: rest) with (pre ++ [fn] ++ rest).
  rewrite app_assoc. split.
  - rewrite (length_app (pre ++ [fn]) rest). lia.
  - rewrite firstn_app, Nat.sub_diag, firstn_all. cbn. now rewrite app_nil_r.
Qed.


End WorkerFacts.

(* ===================================================================== *)
(** ** [Close], [ExecTx], [Read] and [Upsert] *)

Section MethodFacts.
Variables client Sess Doc Op Rec : Type.
Context {drv : Driver Sess Doc}.
Local Abbreviation world := (world Sess Doc Op).

(** C7, the divergence.  [Close] calls itself and nothing else: whatever
    the depth of calls allowed, the call has not returned, and no call
    has reached the driver. *)
Theorem Close_never_returns (fuel : nat) (m : Mongo client) (w : world) :
  Mongo_Close fuel m w = None.
Proof.
  induction fuel as [|fuel IH]; [reflexivity | exact IH].
Qed.

(** C8, as amended.  [Read] leaves the response and the deployment as
    they are, makes no call, and returns [nil]: whatever the backend's
    query [find] would yield for the request, no matching record reaches
    the response and no failure of the query is returned. *)
Theorem Read_does_nothing (ReadRequest : Type)
    (find : Sess -> ReadRequest -> list Rec + error)
    (m : Mongo client) (req : ReadRequest) (rsp : ReadResponse Rec)
    (w : world) :
  Mongo_Read m req rsp w = (Ok rsp, w)
  /\ (forall recs,
        find (session w) req = inl recs -> recs <> [] ->
        fst (Mongo_Read m req rsp w)
        <> Ok {| ReadResponse_Records := ReadResponse_Records rsp ++ recs |})
  /\ (forall err,
        find (session w) req = inr err ->
        fst (Mongo_Read m req rsp w) <> Fail err).
Proof.
  split; [reflexivity|]. split.
  - intros recs _ Hne H. cbn in H. inversion H as [Hrsp].
    destruct rsp as [records]. cbn in Hrsp. inversion Hrsp as [Happ].
    rewrite <- (app_nil_r records) in Happ at 1.
    apply app_inv_head in Happ. now elim Hne.
  - intros err _ H. discriminate H.
Qed.

Lemma ExecTx_unfold (m : Mongo client)
    (fn : Sess -> Sess * (bool * option error)) (s s0 s1 s2 : Sess)
    (ok : bool) (err : option error) :
  StartSession s = (s0, None) ->
  StartTransaction s0 = (s1, None) ->
  fn s1 = (s2, (ok, err)) ->
  Mongo_ExecTx (Op := Op) m fn (fresh s)
  = match err with
    | Some e =>
        (Fail e, {| session := EndSession s2;
                    trace := [EvStartSession; EvStartTransaction; EvFn;
                              EvEndSession];
                    done := [] |})
    | None =>
        if ok then
          (Ok tt, {| session := EndSession (EndSession s2);
                     trace := [EvStartSession; EvStartTransaction; EvFn;
                               EvEndSession; EvEndSession];
                     done := [] |})
        else
          (match snd (AbortTransaction s2) with
           | None => Ok tt
           | Some e => Fail e
           end,
           {| session := EndSession (fst (AbortTransaction s2));
              trace := [EvStartSession; EvStartTransaction; EvFn;
                        EvAbortTransaction; EvEndSession];
              done := [] |})
    end.
Proof.
  intros HS HT Hfn.
  unfold Mongo_ExecTx, UseSession, call_fn, end_session, defer, bind, call,
    ret, fresh.
  cbn [session trace done]. rewrite HS. cbn [session trace done].
  rewrite HT. cbn [session trace done]. rewrite Hfn.
  destruct err as [e|]; [reflexivity|].
  destruct ok; cbn [negb session trace done fst snd app]; [reflexivity|].
  destruct (AbortTransaction s2) as [s3 [e|]]; reflexivity.
Qed.

(** C10.  [ExecTx] never calls the commit primitive; when the caller's
    function returns an error, that error is returned; when it returns
    [false] and no error, the abort primitive is called, once; and when it
    returns [true] and no error, the session is ended and [nil] returned,
    with neither a commit nor an abort. *)
Theorem ExecTx_never_commits (m : Mongo client)
    (fn : Sess -> Sess * (bool * option error)) (s : Sess) :
  commits (trace (snd (Mongo_ExecTx (Op := Op) m fn (fresh s)))) = 0
  /\ (forall s0 s1 s2 ok err,
        StartSession s = (s0, None) ->
        StartTransaction s0 = (s1, None) ->
        fn s1 = (s2, (ok, Some err)) ->
        fst (Mongo_ExecTx (Op := Op) m fn (fresh s)) = Fail err)
  /\ (forall s0 s1 s2,
        StartSession s = (s0, None) ->
        StartTransaction s0 = (s1, None) ->
        fn s1 = (s2, (false, None)) ->
        aborts (trace (snd (Mongo_ExecTx (Op := Op) m fn (fresh s)))) = 1
        /\ fst (Mongo_ExecTx (Op := Op) m fn (fresh s))
           = match snd (AbortTransaction s2) with
             | None => Ok tt
             | Some e => Fail e
             end)
  /\ (forall s0 s1 s2,
        StartSession s = (s0, None) ->
        StartTransaction s0 = (s1, None) ->
        fn s1 = (s2, (true, None)) ->
        Mongo_ExecTx (Op := Op) m fn (fresh s)
        = (Ok tt, {| session := EndSession (EndSession s2);
                     trace := [EvStartSession; EvStartTransaction; EvFn;
                               EvEndSession; EvEndSession];
                     done := [] |})).
Proof.
  split; [|split; [|split]].
  - destruct (StartSession s) as [s0 [e|]] eqn:HS.
    { unfold Mongo_ExecTx, UseSession, bind, call, fresh.
      cbn [session trace done]. now rewrite HS. }
    destruct (StartTransaction s0) as [s1 [e|]] eqn:HT.
    { unfold Mongo_ExecTx, UseSession, defer, end_session, bind, call, fresh.
      cbn [session trace done]. rewrite HS. cbn [session trace done].
      now rewrite HT. }
    destruct (fn s1) as [s2 [ok err]] eqn:Hfn.
    rewrite (ExecTx_unfold m fn s s0 s1 s2 ok err HS HT Hfn).
    destruct err; [reflexivity|]. destruct ok; reflexivity.
  - intros s0 s1 s2 ok err HS HT Hfn.
    now rewrite (ExecTx_unfold m fn s s0 s1 s2 ok (Some err) HS HT Hfn).
  - intros s0 s1 s2 HS HT Hfn.
    rewrite (ExecTx_unfold m fn s s0 s1 s2 false None HS HT Hfn).
    split; reflexivity.
  - intros s0 s1 s2 HS HT Hfn.
    now rewrite (ExecTx_unfold m fn s s0 s1 s2 true None HS HT Hfn).
Qed.

End MethodFacts.

(* ===================================================================== *)
(** ** [Upsert] *)

Section UpsertFacts.
Variables client Sess Doc Op Rec : Type.
Context {drv : Driver Sess Doc}.
Variable Assing : Rec -> Doc + error.
Variable Parse : string -> ConnString + error.
Local Abbreviation world := (world Sess Doc Op).
Local Abbreviation Upsert_ := (@Mongo_Upsert client Sess Doc Op Rec drv Assing Parse).

(** The loop either converts every record, appending one model per
    record in order, or stops at the first record that does not convert. *)
Lemma Upsert_models_spec (records : list Rec) :
  forall models,
    match Upsert_models Assing models records with
    | inl ms =>
        exists docs,
          Forall2 (fun record doc => Assing record = inl doc) records docs
          /\ ms = models ++ map NewUpdateOneModel docs
    | inr err =>
        exists pre record post,
          records = pre ++ record :: post
          /\ Assing record = inr err
          /\ Forall (fun r => exists doc, Assing r = inl doc) pre
    end.
Proof.
  induction records as [|record rest IH]; intros models; cbn [Upsert_models].
  - exists []. split; [constructor | now rewrite app_nil_r].
  - destruct (Assing record) as [doc|err] eqn:HA.
    + specialize (IH (models ++ [NewUpdateOneModel doc])).
      destruct (Upsert_models Assing _ rest) as [ms|err].
      * destruct IH as [docs [HF ->]]. exists (doc :: docs). split.
        -- now constructor.
        -- now rewrite <- app_assoc.
      * destruct IH as [pre [r [post [-> [Hr HF]]]]].
        exists (record :: pre), r, post. repeat split; try assumption.
        constructor; [now exists doc | assumption].
    + exists [], record, rest. repeat split; [assumption | constructor].
Qed.

Lemma Upsert_models_fails (records : list Rec) (models : list (WriteModel Doc)) :
  Exists (fun record => exists err, Assing record = inr err) records ->
  exists err, Upsert_models Assing models records = inr err.
Proof.
  intros HE. pose proof (Upsert_models_spec records models) as H.
  destruct (Upsert_models Assing models records) as [ms|err]; [|now exists err].
  destruct H as [docs [HF _]]. exfalso.
  induction HF as [|record doc records docs Hrd HF IH].
  - inversion HE.
  - inversion HE as [? ? [err Herr]|]; subst; [congruence | auto].
Qed.


End UpsertFacts.

(* ===================================================================== *)
(** ** The statements on the concrete deployment *)

Lemma demo_merge : Merge [[1; 2]; [3]] [1; 3; 2].
Proof.
  apply (Merge_send [] 1 [2] [[3]] [3; 2]).
  apply (Merge_send [[2]] 3 [] [] [2]).
  apply (Merge_send [] 2 [] [[]] []).
  apply Merge_done. repeat constructor.
Qed.


Example worker_serves_in_order :
  trace (snd (Mongo_StartTx (drv := demo.healthy) (Doc := nat)
                demo.run demo.mongo
                {| Ch := [1; 3; 2]; Ch_closed := true;
                   commit := Some true; rollback := None |} (fresh [])))
  = [EvStartSession; EvStartTransaction;
     EvRecv 1; EvCall 1; EvRet 1;
     EvRecv 3; EvCall 3; EvRet 3;
     EvRecv 2; EvCall 2; EvRet 2;
     EvRecvCommit true; EvCommitTransaction; EvEndSession].
Proof. reflexivity. Qed.

(** C2 on a rollback signal and no commit signal. *)
Lemma rollback_alone_witness :
  let tx := {| Ch := [1; 2]; Ch_closed := true;
               commit := None; rollback := Some true |} in
  Ch_closed tx = true /\ commit tx = None /\ rollback tx = Some true
  /\ aborts (trace (snd (Mongo_StartTx (drv := demo.healthy) (Doc := nat)
                           demo.run demo.mongo tx (fresh []))))
     = 0
  /\ done (snd (Mongo_StartTx (drv := demo.healthy) (Doc := nat)
                  demo.run demo.mongo tx (fresh [])))
     = []
  /\ (fst (Mongo_StartTx (drv := demo.healthy) (Doc := nat)
             demo.run demo.mongo tx (fresh []))
      = Wait OnCommit
      \/ exists err,
           fst (Mongo_StartTx (drv := demo.healthy) (Doc := nat)
                  demo.run demo.mongo tx (fresh []))
           = Fail err).
Proof.
  cbv zeta. do 3 (split; [reflexivity|]).
  exact (@rollback_alone_is_not_honoured unit demo.Sess nat nat demo.healthy
           demo.run demo.mongo
           {| Ch := [1; 2]; Ch_closed := true;
              commit := None; rollback := Some true |}
           [] eq_refl eq_refl eq_refl).
Defined.

Example rollback_alone_blocks :
  Mongo_StartTx (drv := demo.healthy) (Doc := nat) demo.run demo.mongo
    {| Ch := [1; 2]; Ch_closed := true;
       commit := None; rollback := Some true |} (fresh [])
  = (Wait OnCommit,
     {| session := [1; 2];
        trace := [EvStartSession; EvStartTransaction;
                  EvRecv 1; EvCall 1; EvRet 1; EvRecv 2; EvCall 2; EvRet 2];
        done := [] |}).
Proof. reflexivity. Qed.

(** C3, counterexample.  An operation that fails, and a commit that
    fails: the worker returns the error and [tx.done] stays empty. *)
Lemma done_not_fired_on_error :
  (Mongo_StartTx (drv := demo.healthy) (Doc := nat) demo.run demo.mongo
     {| Ch := [1; 0; 2]; Ch_closed := true;
        commit := Some true; rollback := None |} (fresh [])
   = (Fail (ErrExternal "operation failed"),
      {| session := [1];
         trace := [EvStartSession; EvStartTransaction;
                   EvRecv 1; EvCall 1; EvRet 1; EvRecv 0; EvCall 0; EvRet 0;
                   EvEndSession];
         done := [] |}))
  /\ (Mongo_StartTx (drv := demo.commit_fails) (Doc := nat) demo.run demo.mongo
        {| Ch := [1; 2]; Ch_closed := true;
           commit := Some true; rollback := None |} (fresh [])
      = (Fail (ErrExternal "commit failed"),
         {| session := [1; 2];
            trace := [EvStartSession; EvStartTransaction;
                      EvRecv 1; EvCall 1; EvRet 1; EvRecv 2; EvCall 2; EvRet 2;
                      EvRecvCommit true; EvCommitTransaction; EvEndSession];
            done := [] |}))
  /\ ~ done_fires_on_every_return.
Proof.
  split; [reflexivity|]. split; [reflexivity|].
  intros H.
  specialize (H unit demo.Sess nat nat demo.commit_fails demo.run demo.mongo
                {| Ch := [1; 2]; Ch_closed := true;
                   commit := Some true; rollback := None |} []).
  cbn in H. assert (0 = 1) as E; [|discriminate E].
  apply H. right. now eexists.
Qed.

(** C4 on one operation, then one that fails, then one more. *)
Lemma worker_returns_first_error_witness :
  StartSession (Driver := demo.healthy) [] = ([], None)
  /\ StartTransaction (Driver := demo.healthy) [] = ([], None)
  /\ succeed demo.run [1] [] = true
  /\ snd (demo.run 0 (replay demo.run [1] []))
     = Some (ErrExternal "operation failed")
  /\ fst (Mongo_StartTx (drv := demo.healthy) (Doc := nat)
            demo.run demo.mongo
            {| Ch := [1] ++ 0 :: [2]; Ch_closed := false;
               commit := None; rollback := None |} (fresh []))
     = Fail (ErrExternal "operation failed")
  /\ trace (snd (Mongo_StartTx (drv := demo.healthy) (Doc := nat)
                   demo.run demo.mongo
                   {| Ch := [1] ++ 0 :: [2]; Ch_closed := false;
                      commit := None; rollback := None |} (fresh [])))
     = started ([1] ++ [0]) [EvEndSession]
  /\ done (snd (Mongo_StartTx (drv := demo.healthy) (Doc := nat)
                  demo.run demo.mongo
                  {| Ch := [1] ++ 0 :: [2]; Ch_closed := false;
                     commit := None; rollback := None |} (fresh [])))
     = [].
Proof.
  do 4 (split; [reflexivity|]).
  exact (@worker_returns_first_error unit demo.Sess nat nat demo.healthy
           demo.run demo.mongo [1] 0 [2] false None None [] [] []
           (ErrExternal "operation failed")
           eq_refl eq_refl eq_refl eq_refl).
Defined.



(** C8, counterexample.  Three documents match; the response comes back
    empty. *)
Lemma Read_returns_no_record :
  demo.find_all [1; 2; 3] tt = inl [1; 2; 3]
  /\ Mongo_Read (Doc := nat) (Op := nat) demo.mongo tt
       {| ReadResponse_Records := @nil nat |} (fresh [1; 2; 3])
     = (Ok {| ReadResponse_Records := [] |}, fresh [1; 2; 3])
  /\ ~ Read_returns_matches.
Proof.
  split; [reflexivity|]. split; [reflexivity|].
  intros H.
  specialize (H unit demo.Sess nat nat nat unit demo.find_all demo.mongo tt
                {| ReadResponse_Records := [] |} (fresh [1; 2; 3])).
  cbn in H. discriminate H.
Qed.


Lemma atomic_write_fails (models : list (WriteModel nat)) (s s' : demo.Sess)
    (err : error) :
  demo.atomic_write models s = (s', Some err) -> s' = s.
Proof.
  unfold demo.atomic_write.
  destruct (existsb _ models); intros H; inversion H; reflexivity.
Qed.


(** C10 on a function that asks for a rollback, and on one that fails. *)
Lemma ExecTx_never_commits_witness :
  aborts (trace (snd (Mongo_ExecTx (drv := demo.healthy) (Doc := nat)
                        (Op := nat) demo.mongo
                        (fun s => (s ++ [7], (false, None))) (fresh []))))
  = 1
  /\ fst (Mongo_ExecTx (drv := demo.healthy) (Doc := nat) (Op := nat)
            demo.mongo
            (fun s => (s, (true, Some ErrTransactionInProgress))) (fresh []))
     = Fail ErrTransactionInProgress.
Proof.
  split.
  - apply (proj1 (proj2 (proj2
             (@ExecTx_never_commits unit demo.Sess nat nat demo.healthy
                demo.mongo (fun s => (s ++ [7], (false, None))) []))))
      with (s0 := []) (s1 := []) (s2 := [7]); reflexivity.
  - apply (proj1 (proj2
             (@ExecTx_never_commits unit demo.Sess nat nat demo.healthy
                demo.mongo
                (fun s => (s, (true, Some ErrTransactionInProgress))) [])))
      with (s0 := []) (s1 := []) (s2 := []) (ok := true); reflexivity.
Defined.

(** C8 on a deployment of three documents and a query that matches them
    all. *)
Lemma Read_does_nothing_witness :
  demo.find_all [1; 2; 3] tt = inl [1; 2; 3]
  /\ [1; 2; 3] <> @nil nat
  /\ fst (Mongo_Read (Doc := nat) (Op := nat) demo.mongo tt
            {| ReadResponse_Records := @nil nat |} (fresh [1; 2; 3]))
     <> Ok {| ReadResponse_Records := [] ++ [1; 2; 3] |}.
Proof.
  split; [reflexivity|]. split; [discriminate|].
  apply (proj1 (proj2
           (@Read_does_nothing unit demo.Sess nat nat nat unit demo.find_all
              demo.mongo tt {| ReadResponse_Records := [] |}
              (fresh [1; 2; 3])))).
  - reflexivity.
  - discriminate.
Defined.

(* ===================================================================== *)
(** * Part III: further properties of the code *)

(** ** The resolver and [NewMongo] *)

Section ResolverMore.
Variable client : Type.
Variable Connect : string -> client + error.
Variable pgconn : Type.
Variable PgConnect : string -> pgconn + error.

(** X3.  What [New] returns fits the descriptor it was given: a document
    store facade comes only from a descriptor that contains the scheme of
    its own type, it wraps the client that [Connect] gave for that very
    descriptor, and it keeps the descriptor; a relational facade comes
    only from a descriptor that contains [postgresql] and not [mongodb]. *)
Theorem New_facade_fits_descriptor (dns : string) :
  (forall m : Mongo client,
     New client Connect pgconn PgConnect dns = inl (OfMongo m) ->
     Contains dns (Scheme (Mongo_Type client m)) = true
     /\ storage.dns m = dns
     /\ Connect dns = inl (Client m))
  /\ (forall p : Postgres pgconn,
        New client Connect pgconn PgConnect dns = inl (OfPostgres p) ->
        Contains dns "mongodb" = false
        /\ Contains dns "postgresql" = true).
Proof.
  unfold New, NewMongo, NewPostgres.
  change (Scheme MongoType) with "mongodb".
  change (Scheme PostgresType) with "postgresql".
  split.
  - intros m H. destruct (Contains dns "mongodb") eqn:Hm.
    + destruct (Connect dns) as [c|e]; [|discriminate].
      inversion H; subst m. cbn. now repeat split.
    + destruct (Contains dns "postgresql"); [|discriminate].
      destruct (PgConnect dns); discriminate.
  - intros p H. destruct (Contains dns "mongodb") eqn:Hm.
    + destruct (Connect dns); discriminate.
    + destruct (Contains dns "postgresql"); [now split | discriminate].
Qed.

(** X4.  When the descriptor names the document store and the connection
    fails, [New] returns the driver's error as it is and does not fall
    back on the relational store, even where that one would connect. *)
Theorem New_does_not_fall_back (dns : string) (err : error) :
  Contains dns "mongodb" = true ->
  Connect dns = inr err ->
  New client Connect pgconn PgConnect dns = inr err.
Proof.
  intros Hm Hc. unfold New, NewMongo.
  change (Scheme MongoType) with "mongodb". now rewrite Hm, Hc.
Qed.

End ResolverMore.

(** X3 on a document store descriptor. *)
Lemma New_facade_fits_descriptor_witness :
  Contains "mongodb://localhost:27017/db" "mongodb" = true
  /\ dns demo.mongo = "mongodb://localhost:27017/db"
  /\ demo.Connect "mongodb://localhost:27017/db" = inl tt.
Proof.
  exact (proj1 (New_facade_fits_descriptor unit demo.Connect unit
                  demo.PgConnect "mongodb://localhost:27017/db")
               demo.mongo eq_refl).
Defined.

(** X4 on a descriptor that the relational connector would accept: a
    connector that accepts every URI stands for it. *)
Lemma New_does_not_fall_back_witness :
  Contains "postgresql://mongodb-1:5432/db" "mongodb" = true
  /\ demo.Connect "postgresql://mongodb-1:5432/db"
     = inr (ErrExternal "error parsing uri: scheme must be mongodb or mongodb+srv")
  /\ New unit demo.Connect unit (fun _ => inl tt)
       "postgresql://mongodb-1:5432/db"
     = inr (ErrExternal "error parsing uri: scheme must be mongodb or mongodb+srv").
Proof.
  split; [reflexivity|]. split; [reflexivity|].
  exact (New_does_not_fall_back unit demo.Connect unit (fun _ => inl tt)
           "postgresql://mongodb-1:5432/db" _ eq_refl eq_refl).
Defined.

(* ===================================================================== *)
(** ** [ExecTx]: sessions and the caller's function *)

Section ExecTxMore.
Variables client Sess Doc Op : Type.
Context {drv : Driver Sess Doc}.
Local Abbreviation ExecTx := (@Mongo_ExecTx client Sess Doc Op drv).

Lemma ExecTx_no_session (m : Mongo client)
    (fn : Sess -> Sess * (bool * option error)) (s s0 : Sess) (err : error) :
  StartSession s = (s0, Some err) ->
  ExecTx m fn (fresh s)
  = (Fail err, {| session := s0; trace := [EvStartSession]; done := [] |}).
Proof.
  intros HS. unfold Mongo_ExecTx, UseSession, bind, call, fresh.
  cbn [session trace done]. now rewrite HS.
Qed.

Lemma ExecTx_no_transaction (m : Mongo client)
    (fn : Sess -> Sess * (bool * option error)) (s s0 s1 : Sess)
    (err : error) :
  StartSession s = (s0, None) ->
  StartTransaction s0 = (s1, Some err) ->
  ExecTx m fn (fresh s)
  = (Fail err,
     {| session := EndSession s1;
        trace := [EvStartSession; EvStartTransaction; EvEndSession];
        done := [] |}).
Proof.
  intros HS HT.
  unfold Mongo_ExecTx, UseSession, defer, end_session, bind, call, fresh.
  cbn [session trace done]. rewrite HS. cbn [session trace done].
  now rewrite HT.
Qed.

(** X5.  [ExecTx] does not run the caller's function unless both the
    session and the transaction have started: when the session does not
    start its error is returned and nothing else happens; when the
    transaction does not start its error is returned and the session is
    ended.  In both cases the outcome does not depend on the function. *)
Theorem ExecTx_needs_transaction (m : Mongo client)
    (fn : Sess -> Sess * (bool * option error)) (s : Sess) :
  (forall s0 err,
     StartSession s = (s0, Some err) ->
     ExecTx m fn (fresh s)
     = (Fail err, {| session := s0; trace := [EvStartSession]; done := [] |}))
  /\ (forall s0 s1 err,
        StartSession s = (s0, None) ->
        StartTransaction s0 = (s1, Some err) ->
        ExecTx m fn (fresh s)
        = (Fail err,
           {| session := EndSession s1;
              trace := [EvStartSession; EvStartTransaction; EvEndSession];
              done := [] |})).
Proof.
  split.
  - intros s0 err. apply ExecTx_no_session.
  - intros s0 s1 err. apply ExecTx_no_transaction.
Qed.

(** X6.  [ExecTx] runs the caller's function at most once and never
    leaves a session open: once the session has started, the last thing
    it does is end it.  It ends the session twice exactly on the path
    where the function asks to keep its work, and there it returns [nil]
    having called neither the commit nor the abort primitive. *)
Theorem ExecTx_ends_its_session (m : Mongo client)
    (fn : Sess -> Sess * (bool * option error)) (s : Sess) :
  fn_calls (trace (snd (ExecTx m fn (fresh s)))) <= 1
  /\ end_sessions (trace (snd (ExecTx m fn (fresh s)))) <= 2
  /\ (snd (StartSession s) = None ->
      1 <= end_sessions (trace (snd (ExecTx m fn (fresh s))))
      /\ last (trace (snd (ExecTx m fn (fresh s)))) EvStartSession
         = EvEndSession)
  /\ (end_sessions (trace (snd (ExecTx m fn (fresh s)))) = 2 ->
      fst (ExecTx m fn (fresh s)) = Ok tt
      /\ terminal_actions (trace (snd (ExecTx m fn (fresh s)))) = 0
      /\ fn_calls (trace (snd (ExecTx m fn (fresh s)))) = 1).
Proof.
  destruct (StartSession s) as [s0 [e|]] eqn:HS.
  { rewrite (ExecTx_no_session m fn s s0 e HS). cbn.
    repeat split; try lia; discriminate. }
  destruct (StartTransaction s0) as [s1 [e|]] eqn:HT.
  { rewrite (ExecTx_no_transaction m fn s s0 s1 e HS HT). cbn.
    repeat split; try lia; discriminate. }
  destruct (fn s1) as [s2 [ok err]] eqn:Hfn.
  rewrite (ExecTx_unfold client Sess Doc Op m fn s s0 s1 s2 ok err HS HT Hfn).
  destruct err as [e|]; [|destruct ok]; cbn;
    repeat split; try lia; discriminate.
Qed.

End ExecTxMore.

(** X5 on a deployment that cannot be reached and on one without
    transactions: the function, which would write [7], is not run. *)
Lemma ExecTx_needs_transaction_witness :
  Mongo_ExecTx (drv := demo.unreachable) (Doc := nat) (Op := nat) demo.mongo
    (fun s => (s ++ [7], (true, None))) (fresh [])
  = (Fail (ErrExternal "server selection timeout"),
     {| session := []; trace := [EvStartSession]; done := [] |})
  /\ Mongo_ExecTx (drv := demo.standalone) (Doc := nat) (Op := nat) demo.mongo
       (fun s => (s ++ [7], (true, None))) (fresh [])
     = (Fail (ErrExternal "transactions are not supported"),
        {| session := [];
           trace := [EvStartSession; EvStartTransaction; EvEndSession];
           done := [] |}).
Proof.
  split.
  - exact (proj1 (@ExecTx_needs_transaction unit demo.Sess nat nat
                    demo.unreachable demo.mongo
                    (fun s => (s ++ [7], (true, None))) [])
                 [] _ eq_refl).
  - exact (proj2 (@ExecTx_needs_transaction unit demo.Sess nat nat
                    demo.standalone demo.mongo
                    (fun s => (s ++ [7], (true, None))) [])
                 [] [] _ eq_refl eq_refl).
Defined.

(** X6 on a function that asks to keep its work. *)
Lemma ExecTx_ends_its_session_witness :
  end_sessions
    (trace (snd (Mongo_ExecTx (drv := demo.healthy) (Doc := nat) (Op := nat)
                   demo.mongo (fun s => (s ++ [7], (true, None)))
                   (fresh []))))
  = 2
  /\ fst (Mongo_ExecTx (drv := demo.healthy) (Doc := nat) (Op := nat)
            demo.mongo (fun s => (s ++ [7], (true, None))) (fresh []))
     = Ok tt
  /\ terminal_actions
       (trace (snd (Mongo_ExecTx (drv := demo.healthy) (Doc := nat)
                      (Op := nat) demo.mongo
                      (fun s => (s ++ [7], (true, None))) (fresh []))))
     = 0
  /\ fn_calls
       (trace (snd (Mongo_ExecTx (drv := demo.healthy) (Doc := nat)
                      (Op := nat) demo.mongo
                      (fun s => (s ++ [7], (true, None))) (fresh []))))
     = 1.
Proof.
  split; [reflexivity|].
  exact (proj2 (proj2 (proj2
           (@ExecTx_ends_its_session unit demo.Sess nat nat demo.healthy
              demo.mongo (fun s => (s ++ [7], (true, None))) [])))
         eq_refl).
Defined.

(* ===================================================================== *)
(** ** The worker of [StartTx]: starting, draining, deciding *)

Section WorkerMore.
Variables client Sess Doc Op : Type.
Context {drv : Driver Sess Doc}.
Variable run : Op -> Sess -> Sess * option error.
Local Abbreviation world := (world Sess Doc Op).
Local Abbreviation worker := (@Mongo_StartTx client Sess Doc Op drv run).

(** Takes a run of the worker apart along the path it follows. *)
Ltac along_path m tx s :=
  let P := fresh "P" in
  pose proof (worker_follows_path client Sess Doc Op run m tx s) as P;
  destruct (worker m tx (fresh s)) as [res wfin];
  cbn [fst snd] in *;
  inversion P; subst; clear P; unfold started.

Lemma worker_no_session (m : Mongo client) (tx : Tx Op) (s s0 : Sess)
    (err : error) :
  StartSession s = (s0, Some err) ->
  worker m tx (fresh s)
  = (Fail err, {| session := s0; trace := [EvStartSession]; done := [] |}).
Proof. intros HS. unfold_worker. now rewrite HS. Qed.

Lemma worker_no_transaction (m : Mongo client) (tx : Tx Op) (s s0 s1 : Sess)
    (err : error) :
  StartSession s = (s0, None) ->
  StartTransaction s0 = (s1, Some err) ->
  worker m tx (fresh s)
  = (Fail err,
     {| session := EndSession s1;
        trace := [EvStartSession; EvStartTransaction; EvEndSession];
        done := [] |}).
Proof.
  intros HS HT. unfold_worker. rewrite HS. cbn [session trace done fst snd].
  now rewrite HT.
Qed.

(** A transaction that has started, whose operations all return [nil] and
    whose queue is closed, reaches the [switch] with the session as the
    operations left it. *)
Lemma worker_drained (m : Mongo client) (tx : Tx Op) (s s0 s1 : Sess) :
  StartSession s = (s0, None) ->
  StartTransaction s0 = (s1, None) ->
  succeed run (Ch tx) s1 = true ->
  Ch_closed tx = true ->
  worker m tx (fresh s)
  = defer end_session
      (bind (switch_commit_rollback tx)
            (fun _ => bind send_done (fun _ => ret tt)))
      {| session := replay run (Ch tx) s1;
         trace := started (Ch tx) [];
         done := [] |}.
Proof.
  intros HS HT Hops Hclosed.
  unfold Mongo_StartTx, UseSession.
  unfold bind at 1. unfold call at 1. unfold fresh.
  cbn [session trace done]. rewrite HS. cbn [app].
  unfold defer at 1. unfold bind at 1. unfold call at 1.
  cbn [session trace done]. rewrite HT. cbn [app].
  unfold bind at 1.
  rewrite <- (app_nil_r (Ch tx)) at 1.
  rewrite range_Ch_app by exact Hops.
  cbn [range_Ch session trace done]. rewrite Hclosed.
  unfold ret at 1. unfold started, defer. cbn [app].
  rewrite app_nil_r. reflexivity.
Qed.

(** X7.  The worker calls the commit or the abort primitive only once it
    has served the whole queue and found it closed, and only on the
    matching signal: the commit primitive after [true] from [tx.commit],
    the abort primitive after [false] from [tx.commit] followed by [true]
    from [tx.rollback]. *)
Theorem worker_decides_after_the_queue (m : Mongo client) (tx : Tx Op)
    (s : Sess) :
  terminal_actions (trace (snd (worker m tx (fresh s)))) = 0
  \/ (Ch_closed tx = true
      /\ queue_events (trace (snd (worker m tx (fresh s))))
         = flat_map serve (Ch tx)
      /\ ((commit tx = Some true
           /\ commits (trace (snd (worker m tx (fresh s)))) = 1
           /\ aborts (trace (snd (worker m tx (fresh s)))) = 0)
          \/ (commit tx = Some false /\ rollback tx = Some true
              /\ commits (trace (snd (worker m tx (fresh s)))) = 0
              /\ aborts (trace (snd (worker m tx (fresh s)))) = 1))).
Proof.
  along_path m tx s;
    rewrite ?terminal_actions_started, ?queue_events_started,
      ?commits_started, ?aborts_started;
    cbn; rewrite ?app_nil_r;
    try (left; reflexivity);
    right; (split; [assumption|]); (split; [reflexivity|]);
    first [left; now repeat split | right; now repeat split].
Qed.

(** X8.  While the queue is open the worker does not look at the
    signals: whatever [tx.commit] and [tx.rollback] hold, it behaves as if
    nothing had been sent on them; it does not return [nil], calls neither
    the commit nor the abort primitive and sends nothing on [tx.done]. *)
Theorem worker_open_queue_never_decides (m : Mongo client) (q : list Op)
    (c r : option bool) (s : Sess) :
  worker m {| Ch := q; Ch_closed := false; commit := c; rollback := r |}
         (fresh s)
  = worker m {| Ch := q; Ch_closed := false; commit := None;
                rollback := None |} (fresh s)
  /\ fst (worker m {| Ch := q; Ch_closed := false; commit := c;
                      rollback := r |} (fresh s)) <> Ok tt
  /\ terminal_actions
       (trace (snd (worker m {| Ch := q; Ch_closed := false; commit := c;
                                rollback := r |} (fresh s)))) = 0
  /\ done (snd (worker m {| Ch := q; Ch_closed := false; commit := c;
                            rollback := r |} (fresh s))) = [].
Proof.
  split.
  - unfold_worker. cbn [Ch Ch_closed].
    driver_call; [reflexivity|]. driver_call; [reflexivity|].
    match goal with |- context [range_Ch run ?q ?c ?w1] =>
      destruct (range_Ch_spec _ _ _ run q c w1) as [ex [rest [_ [_ [_ [_ Hr]]]]]];
      destruct (range_Ch run q c w1) as [[[]|err|on] wl]
    end; cbn [fst snd] in *; [|reflexivity|reflexivity].
    destruct Hr as [_ Hc]. discriminate Hc.
  - along_path m {| Ch := q; Ch_closed := false; commit := c; rollback := r |} s;
      cbn [Ch_closed] in *; try discriminate;
      rewrite ?terminal_actions_started; cbn; now repeat split.
Qed.

(** X9.  A [true] on [tx.commit] settles the matter: the worker does not
    receive from [tx.rollback] and does not call the abort primitive, and
    its whole run is the same whatever was sent on [tx.rollback]. *)
Theorem worker_commit_signal_wins (m : Mongo client) (q : list Op)
    (closed : bool) (r : option bool) (s : Sess) :
  worker m {| Ch := q; Ch_closed := closed; commit := Some true;
              rollback := r |} (fresh s)
  = worker m {| Ch := q; Ch_closed := closed; commit := Some true;
                rollback := None |} (fresh s)
  /\ rollback_receives
       (trace (snd (worker m {| Ch := q; Ch_closed := closed;
                                commit := Some true; rollback := r |}
                             (fresh s)))) = 0
  /\ aborts
       (trace (snd (worker m {| Ch := q; Ch_closed := closed;
                                commit := Some true; rollback := r |}
                             (fresh s)))) = 0.
Proof.
  split; [reflexivity|].
  assert (Hrr : forall ops (t : list (event Doc Op)),
            rollback_receives
              (EvStartSession :: EvStartTransaction :: flat_map serve ops ++ t)
            = rollback_receives t).
  { intros ops t. unfold rollback_receives. cbn [filter].
    rewrite filter_app, length_app.
    assert (H0 : forall l : list Op,
              filter (fun ev : event Doc Op =>
                        match ev with EvRecvRollback _ => true | _ => false end)
                     (flat_map serve l) = []).
    { induction l; cbn; auto. }
    now rewrite H0. }
  along_path m {| Ch := q; Ch_closed := closed; commit := Some true;
                  rollback := r |} s;
    cbn [commit] in *; try discriminate;
    rewrite ?Hrr, ?aborts_started; cbn; now split.
Qed.

(** X10.  The worker serves nothing unless the session and the
    transaction have both started: it returns the error of the step that
    failed, whatever the queue and the signals hold, and ends the session
    if there is one. *)
Theorem worker_needs_transaction (m : Mongo client) (tx : Tx Op) (s : Sess) :
  (forall s0 err,
     StartSession s = (s0, Some err) ->
     worker m tx (fresh s)
     = (Fail err, {| session := s0; trace := [EvStartSession]; done := [] |}))
  /\ (forall s0 s1 err,
        StartSession s = (s0, None) ->
        StartTransaction s0 = (s1, Some err) ->
        worker m tx (fresh s)
        = (Fail err,
           {| session := EndSession s1;
              trace := [EvStartSession; EvStartTransaction; EvEndSession];
              done := [] |})).
Proof.
  split.
  - intros s0 err. apply worker_no_session.
  - intros s0 s1 err. apply worker_no_transaction.
Qed.

(** X11.  On the commit signal, after a queue whose operations all
    returned [nil], the commit primitive is applied to the session as the
    operations left it, applied in the order of the queue; its error, if
    any, is the worker's result, [tx.done] gets its value only when there
    is none, and the session is ended either way. *)
Theorem worker_commit_outcome (m : Mongo client) (tx : Tx Op)
    (s s0 s1 : Sess) :
  StartSession s = (s0, None) ->
  StartTransaction s0 = (s1, None) ->
  succeed run (Ch tx) s1 = true ->
  Ch_closed tx = true ->
  commit tx = Some true ->
  worker m tx (fresh s)
  = (match snd (CommitTransaction (replay run (Ch tx) s1)) with
     | None => Ok tt
     | Some err => Fail err
     end,
     {| session := EndSession (fst (CommitTransaction (replay run (Ch tx) s1)));
        trace := started (Ch tx)
                   [EvRecvCommit true; EvCommitTransaction; EvEndSession];
        done := match snd (CommitTransaction (replay run (Ch tx) s1)) with
                | None => [true]
                | Some _ => []
                end |}).
Proof.
  intros HS HT Hops Hclosed Hcommit.
  rewrite (worker_drained m tx s s0 s1 HS HT Hops Hclosed).
  unfold switch_commit_rollback, send_done, end_session, defer, recv, bind,
    call, ret, log, started.
  rewrite Hcommit. cbn [session trace done fst snd].
  destruct (CommitTransaction (replay run (Ch tx) s1)) as [s2 [e|]];
    cbn [session trace done fst snd length Nat.ltb Nat.leb app];
    now rewrite <- !app_assoc.
Qed.

(** X12.  On the rollback path the worker drops the error of the abort
    primitive: after [false] from [tx.commit] and [true] from
    [tx.rollback] it returns [nil] and puts its value on [tx.done] whether
    the abort succeeded or not. *)
Theorem worker_rollback_drops_abort_error (m : Mongo client) (tx : Tx Op)
    (s s0 s1 : Sess) :
  StartSession s = (s0, None) ->
  StartTransaction s0 = (s1, None) ->
  succeed run (Ch tx) s1 = true ->
  Ch_closed tx = true ->
  commit tx = Some false ->
  rollback tx = Some true ->
  worker m tx (fresh s)
  = (Ok tt,
     {| session := EndSession (fst (AbortTransaction (replay run (Ch tx) s1)));
        trace := started (Ch tx)
                   [EvRecvCommit false; EvRecvRollback true;
                    EvAbortTransaction; EvEndSession];
        done := [true] |}).
Proof.
  intros HS HT Hops Hclosed Hcommit Hrollback.
  rewrite (worker_drained m tx s s0 s1 HS HT Hops Hclosed).
  unfold switch_commit_rollback, send_done, end_session, defer, discard, recv,
    bind, call, ret, log, started.
  rewrite Hcommit, Hrollback. cbn [session trace done fst snd].
  destruct (AbortTransaction (replay run (Ch tx) s1)) as [s2 [e|]];
    cbn [session trace done fst snd length Nat.ltb Nat.leb app];
    now rewrite <- !app_assoc.
Qed.

(** X13.  When both receives yield [false] (as receives from closed
    channels do) the worker finishes without a decision: it calls neither
    the commit nor the abort primitive, and still puts its value on
    [tx.done], ends the session and returns [nil]. *)
Theorem worker_finishes_undecided (m : Mongo client) (tx : Tx Op)
    (s s0 s1 : Sess) :
  StartSession s = (s0, None) ->
  StartTransaction s0 = (s1, None) ->
  succeed run (Ch tx) s1 = true ->
  Ch_closed tx = true ->
  commit tx = Some false ->
  rollback tx = Some false ->
  worker m tx (fresh s)
  = (Ok tt,
     {| session := EndSession (replay run (Ch tx) s1);
        trace := started (Ch tx)
                   [EvRecvCommit false; EvRecvRollback false; EvEndSession];
        done := [true] |})
  /\ terminal_actions (trace (snd (worker m tx (fresh s)))) = 0.
Proof.
  intros HS HT Hops Hclosed Hcommit Hrollback.
  rewrite (worker_drained m tx s s0 s1 HS HT Hops Hclosed).
  unfold switch_commit_rollback, send_done, end_session, defer, discard, recv,
    bind, call, ret, log, started.
  rewrite Hcommit, Hrollback.
  cbn [session trace done fst snd length Nat.ltb Nat.leb app].
  rewrite <- !app_assoc. cbn [app]. split; [reflexivity|].
  now rewrite terminal_actions_started.
Qed.

(** Once the session has started, the worker goes on to start the
    transaction. *)
Lemma worker_started_trace (m : Mongo client) (tx : Tx Op) (s s0 : Sess) :
  StartSession s = (s0, None) ->
  exists t, trace (snd (worker m tx (fresh s)))
            = EvStartSession :: EvStartTransaction :: t.
Proof.
  intros HS. unfold_worker. rewrite HS. cbn [session trace done fst snd app].
  driver_call; [now eexists|].
  match goal with |- context [range_Ch run ?q ?c ?w1] =>
    destruct (range_Ch_spec _ _ _ run q c w1) as [ex [rest [_ [Ht _]]]];
    destruct (range_Ch run q c w1) as [[[]|err|on] wl]
  end; cbn [session trace done fst snd] in *.
  - destruct (commit tx) as [[|]|]; cbn [session trace done fst snd].
    + driver_call; try (match goal with |- context [Nat.ltb ?a ?b] =>
               destruct (Nat.ltb a b) end);
        cbn [session trace done fst snd];
        rewrite Ht; cbn [app]; now eexists.
    + destruct (rollback tx) as [[|]|]; cbn [session trace done fst snd].
      * driver_call; try (match goal with |- context [Nat.ltb ?a ?b] =>
               destruct (Nat.ltb a b) end);
        cbn [session trace done fst snd];
          rewrite Ht; cbn [app]; now eexists.
      * try (match goal with |- context [Nat.ltb ?a ?b] =>
               destruct (Nat.ltb a b) end);
        cbn [session trace done fst snd];
          rewrite Ht; cbn [app]; now eexists.
      * rewrite Ht; cbn [app]; now eexists.
    + rewrite Ht; cbn [app]; now eexists.
  - rewrite Ht; cbn [app]; now eexists.
  - rewrite Ht; cbn [app]; now eexists.
Qed.

(** X14.  The worker ends the session it has started exactly when it
    returns: once on every path that returns, with [nil] or an error, as
    the last thing it does, and never while it stays blocked on a
    channel. *)
Theorem worker_ends_session_when_it_returns (m : Mongo client) (tx : Tx Op)
    (s : Sess) :
  end_sessions (trace (snd (worker m tx (fresh s)))) <= 1
  /\ (forall on, fst (worker m tx (fresh s)) = Wait on ->
        end_sessions (trace (snd (worker m tx (fresh s)))) = 0)
  /\ (snd (StartSession s) = None ->
      (fst (worker m tx (fresh s)) = Ok tt
       \/ exists err, fst (worker m tx (fresh s)) = Fail err) ->
      end_sessions (trace (snd (worker m tx (fresh s)))) = 1
      /\ last (trace (snd (worker m tx (fresh s)))) EvStartSession
         = EvEndSession).
Proof.
  assert (Hes : forall ops (t : list (event Doc Op)),
            end_sessions
              (EvStartSession :: EvStartTransaction :: flat_map serve ops ++ t)
            = end_sessions t).
  { intros ops t. unfold end_sessions. cbn [filter].
    rewrite filter_app, length_app.
    assert (H0 : forall l : list Op,
              filter (fun ev : event Doc Op =>
                        match ev with EvEndSession => true | _ => false end)
                     (flat_map serve l) = []).
    { induction l; cbn; auto. }
    now rewrite H0. }
  assert (Hlast : forall ops (t : list (event Doc Op)),
            last (EvStartSession :: EvStartTransaction
                    :: flat_map serve ops ++ t ++ [EvEndSession])
                 EvStartSession
            = EvEndSession).
  { intros ops t.
    change (EvStartSession :: EvStartTransaction
              :: flat_map serve ops ++ t ++ [EvEndSession])
      with ([EvStartSession; EvStartTransaction]
              ++ flat_map serve ops ++ t ++ [EvEndSession]).
    rewrite !app_assoc. apply last_last. }
  destruct (StartSession s) as [s0 [e|]] eqn:HS.
  { rewrite (worker_no_session m tx s s0 e HS). cbn.
    repeat split; try lia; discriminate. }
  destruct (worker_started_trace m tx s s0 HS) as [t0 Ht0].
  along_path m tx s; rewrite ?Hes; cbn;
    try (match goal with H : _ = trace _ |- _ =>
           rewrite <- H in Ht0; discriminate Ht0 end);
    (split; [lia|]); (split; [intros on Hon; first [reflexivity | discriminate]|]);
    intros _ [Hok | [e He]]; try discriminate;
    (split; [reflexivity|]).
  all: try reflexivity.
  all: try (apply (Hlast _ []));
       try (apply (Hlast _ [EvRecvCommit true; EvCommitTransaction]));
       try (apply (Hlast _ [EvRecvCommit false; EvRecvRollback true;
                            EvAbortTransaction]));
       try (apply (Hlast _ [EvRecvCommit false; EvRecvRollback false])).
Qed.

End WorkerMore.

(** X10 on a deployment that cannot be reached and on one without
    transactions, with two operations queued and a commit signal. *)
Lemma worker_needs_transaction_witness :
  Mongo_StartTx (drv := demo.unreachable) (Doc := nat) demo.run demo.mongo
    {| Ch := [1; 2]; Ch_closed := true; commit := Some true;
       rollback := None |} (fresh [])
  = (Fail (ErrExternal "server selection timeout"),
     {| session := []; trace := [EvStartSession]; done := [] |})
  /\ Mongo_StartTx (drv := demo.standalone) (Doc := nat) demo.run demo.mongo
       {| Ch := [1; 2]; Ch_closed := true; commit := Some true;
          rollback := None |} (fresh [])
     = (Fail (ErrExternal "transactions are not supported"),
        {| session := [];
           trace := [EvStartSession; EvStartTransaction; EvEndSession];
           done := [] |}).
Proof.
  split.
  - exact (proj1 (@worker_needs_transaction unit demo.Sess nat nat
                    demo.unreachable demo.run demo.mongo
                    {| Ch := [1; 2]; Ch_closed := true; commit := Some true;
                       rollback := None |} [])
                 [] _ eq_refl).
  - exact (proj2 (@worker_needs_transaction unit demo.Sess nat nat
                    demo.standalone demo.run demo.mongo
                    {| Ch := [1; 2]; Ch_closed := true; commit := Some true;
                       rollback := None |} [])
                 [] [] _ eq_refl eq_refl).
Defined.

(** X11 on two operations and a commit that fails. *)
Lemma worker_commit_outcome_witness :
  StartSession (Driver := demo.commit_fails) [] = ([], None)
  /\ StartTransaction (Driver := demo.commit_fails) [] = ([], None)
  /\ succeed demo.run [1; 2] [] = true
  /\ Mongo_StartTx (drv := demo.commit_fails) (Doc := nat) demo.run demo.mongo
       {| Ch := [1; 2]; Ch_closed := true; commit := Some true;
          rollback := None |} (fresh [])
     = (Fail (ErrExternal "commit failed"),
        {| session := [1; 2];
           trace := started [1; 2]
                      [EvRecvCommit true; EvCommitTransaction; EvEndSession];
           done := [] |}).
Proof.
  do 3 (split; [reflexivity|]).
  exact (@worker_commit_outcome unit demo.Sess nat nat demo.commit_fails
           demo.run demo.mongo
           {| Ch := [1; 2]; Ch_closed := true; commit := Some true;
              rollback := None |}
           [] [] [] eq_refl eq_refl eq_refl eq_refl eq_refl).
Defined.

(** X12 on two operations and an abort that fails. *)
Lemma worker_rollback_drops_abort_error_witness :
  snd (AbortTransaction (Driver := demo.abort_fails) [1; 2])
  = Some (ErrExternal "abort failed")
  /\ Mongo_StartTx (drv := demo.abort_fails) (Doc := nat) demo.run demo.mongo
       {| Ch := [1; 2]; Ch_closed := true; commit := Some false;
          rollback := Some true |} (fresh [])
     = (Ok tt,
        {| session := [];
           trace := started [1; 2]
                      [EvRecvCommit false; EvRecvRollback true;
                       EvAbortTransaction; EvEndSession];
           done := [true] |}).
Proof.
  split; [reflexivity|].
  exact (@worker_rollback_drops_abort_error unit demo.Sess nat nat
           demo.abort_fails demo.run demo.mongo
           {| Ch := [1; 2]; Ch_closed := true; commit := Some false;
              rollback := Some true |}
           [] [] [] eq_refl eq_refl eq_refl eq_refl eq_refl eq_refl).
Defined.

(** X13 on two operations and two closed signal channels. *)
Lemma worker_finishes_undecided_witness :
  succeed demo.run [1; 2] [] = true
  /\ Mongo_StartTx (drv := demo.healthy) (Doc := nat) demo.run demo.mongo
       {| Ch := [1; 2]; Ch_closed := true; commit := Some false;
          rollback := Some false |} (fresh [])
     = (Ok tt,
        {| session := [1; 2];
           trace := started [1; 2]
                      [EvRecvCommit false; EvRecvRollback false; EvEndSession];
           done := [true] |})
  /\ terminal_actions
       (trace (snd (Mongo_StartTx (drv := demo.healthy) (Doc := nat)
                      demo.run demo.mongo
                      {| Ch := [1; 2]; Ch_closed := true;
                         commit := Some false; rollback := Some false |}
                      (fresh []))))
     = 0.
Proof.
  split; [reflexivity|].
  exact (@worker_finishes_undecided unit demo.Sess nat nat demo.healthy
           demo.run demo.mongo
           {| Ch := [1; 2]; Ch_closed := true; commit := Some false;
              rollback := Some false |}
           [] [] [] eq_refl eq_refl eq_refl eq_refl eq_refl eq_refl).
Defined.

(** X14 on a worker that stays blocked on [tx.commit], and on one that
    commits. *)
Lemma worker_ends_session_when_it_returns_witness :
  end_sessions
    (trace (snd (Mongo_StartTx (drv := demo.healthy) (Doc := nat)
                   demo.run demo.mongo
                   {| Ch := [1; 2]; Ch_closed := true; commit := None;
                      rollback := Some true |} (fresh []))))
  = 0
  /\ end_sessions
       (trace (snd (Mongo_StartTx (drv := demo.healthy) (Doc := nat)
                      demo.run demo.mongo
                      {| Ch := [1; 2]; Ch_closed := true;
                         commit := Some true; rollback := None |}
                      (fresh []))))
     = 1.
Proof.
  split.
  - exact (proj1 (proj2
             (@worker_ends_session_when_it_returns unit demo.Sess nat nat
                demo.healthy demo.run demo.mongo
                {| Ch := [1; 2]; Ch_closed := true; commit := None;
                   rollback := Some true |} []))
           OnCommit eq_refl).
  - exact (proj1 (proj2 (proj2
             (@worker_ends_session_when_it_returns unit demo.Sess nat nat
                demo.healthy demo.run demo.mongo
                {| Ch := [1; 2]; Ch_closed := true; commit := Some true;
                   rollback := None |} []))
           eq_refl (or_introl eq_refl))).
Defined.

(* ===================================================================== *)
(** ** [Upsert]: the order of its checks *)

Section UpsertMore.
Variables client Sess Doc Op Rec : Type.
Context {drv : Driver Sess Doc}.
Variable Assing : Rec -> Doc + error.
Variable Parse : string -> ConnString + error.
Local Abbreviation world := (world Sess Doc Op).
Local Abbreviation Upsert_ := (@Mongo_Upsert client Sess Doc Op Rec drv Assing Parse).

(** Records that convert extend the slice, one model each, and the loop
    goes on with the records that follow. *)
Lemma Upsert_models_converted (pre : list Rec) (docs : list Doc) :
  Forall2 (fun record doc => Assing record = inl doc) pre docs ->
  forall models rest,
    Upsert_models Assing models (pre ++ rest)
    = Upsert_models Assing (models ++ map NewUpdateOneModel docs) rest.
Proof.
  induction 1 as [|record doc pre docs Hrd HF IH]; intros models rest.
  - cbn. now rewrite app_nil_r.
  - cbn [app Upsert_models map]. rewrite Hrd, IH.
    now rewrite <- app_assoc.
Qed.

(** X15.  The loop of [Upsert] over two batches of records is the loop
    over the first, then, if that one went through, the loop over the
    second started from the models built so far; an error in the first
    batch ends it there. *)
Theorem Upsert_models_app (models : list (WriteModel Doc))
    (records1 records2 : list Rec) :
  Upsert_models Assing models (records1 ++ records2)
  = match Upsert_models Assing models records1 with
    | inl models1 => Upsert_models Assing models1 records2
    | inr err => inr err
    end.
Proof.
  revert models. induction records1 as [|record rest IH]; intros models.
  - reflexivity.
  - cbn [app Upsert_models].
    destruct (Assing record) as [doc|err]; [apply IH | reflexivity].
Qed.

(** X16.  [Upsert] reports the first record that does not convert: its
    error is returned and nothing is written, whatever the records after
    it are and whether or not the connection string would have parsed. *)
Theorem Upsert_reports_first_bad_record (m : Mongo client)
    (table : string) (pre : list Rec) (docs : list Doc) (record : Rec)
    (post : list Rec) (err : error) (w : world) :
  Forall2 (fun r doc => Assing r = inl doc) pre docs ->
  Assing record = inr err ->
  Upsert_ m {| UpsertRequest_Table := table;
               UpsertRequest_Records := pre ++ record :: post |} w
  = (Fail err, w).
Proof.
  intros Hpre Hrec. unfold Mongo_Upsert, bind, lift.
  cbn [UpsertRequest_Records].
  rewrite (Upsert_models_converted pre docs Hpre).
  cbn [Upsert_models]. now rewrite Hrec.
Qed.

(** X17.  When every record converts and the connection string does not
    parse, [Upsert] returns the parser's error and nothing is written. *)
Theorem Upsert_needs_database_name (m : Mongo client)
    (req : UpsertRequest Rec) (docs : list Doc) (err : error) (w : world) :
  Forall2 (fun r doc => Assing r = inl doc) (UpsertRequest_Records req) docs ->
  Parse (dns m) = inr err ->
  Upsert_ m req w = (Fail err, w).
Proof.
  intros Hrecs Hparse. unfold Mongo_Upsert, bind, lift.
  rewrite <- (app_nil_r (UpsertRequest_Records req)).
  rewrite (Upsert_models_converted _ docs Hrecs).
  cbn [Upsert_models]. now rewrite Hparse.
Qed.

(** X18.  A request without records is not short-circuited: [Upsert]
    still parses the connection string and issues one bulk write, with no
    model in it, and returns what that write returns. *)
Theorem Upsert_of_no_record_still_writes (m : Mongo client)
    (table : string) (cs : ConnString) (w : world) :
  Parse (dns m) = inl cs ->
  Upsert_ m {| UpsertRequest_Table := table; UpsertRequest_Records := [] |} w
  = (match snd (BulkWrite (Database cs) table [] (session w)) with
     | None => Ok tt
     | Some err => Fail err
     end,
     {| session := fst (BulkWrite (Database cs) table [] (session w));
        trace := trace w ++ [EvBulkWrite (Database cs) table []];
        done := done w |}).
Proof.
  intros Hparse. unfold Mongo_Upsert, bind, lift, call.
  cbn [UpsertRequest_Records UpsertRequest_Table Upsert_models].
  rewrite Hparse.
  destruct (BulkWrite (Database cs) table [] (session w)) as [s' [e|]];
    reflexivity.
Qed.

End UpsertMore.

(** X16 on a malformed record between two good ones, with a connection
    string that would not parse either. *)
Lemma Upsert_reports_first_bad_record_witness :
  Forall2 (fun r doc => demo.Assing r = inl doc) [1] [1]
  /\ demo.Assing 0 = inr (ErrExternal "malformed record")
  /\ Mongo_Upsert (drv := demo.healthy) (Op := nat) demo.Assing
       demo.Parse_fails demo.mongo
       {| UpsertRequest_Table := "T";
          UpsertRequest_Records := [1] ++ 0 :: [3] |} (fresh [7])
     = (Fail (ErrExternal "malformed record"), fresh [7]).
Proof.
  assert (H : Forall2 (fun r doc => demo.Assing r = inl doc) [1] [1]).
  { repeat constructor. }
  split; [exact H|]. split; [reflexivity|].
  exact (@Upsert_reports_first_bad_record unit demo.Sess nat nat nat
           demo.healthy demo.Assing demo.Parse_fails demo.mongo "T"
           [1] [1] 0 [3] _ (fresh [7]) H eq_refl).
Defined.

(** X17 on three good records and a connection string that does not
    parse. *)
Lemma Upsert_needs_database_name_witness :
  Forall2 (fun r doc => demo.Assing r = inl doc) [1; 2; 3] [1; 2; 3]
  /\ demo.Parse_fails (dns demo.mongo) = inr (ErrExternal "error parsing uri")
  /\ Mongo_Upsert (drv := demo.healthy) (Op := nat) demo.Assing
       demo.Parse_fails demo.mongo
       {| UpsertRequest_Table := "T"; UpsertRequest_Records := [1; 2; 3] |}
       (fresh [7])
     = (Fail (ErrExternal "error parsing uri"), fresh [7]).
Proof.
  assert (H : Forall2 (fun r doc => demo.Assing r = inl doc)
                      [1; 2; 3] [1; 2; 3]).
  { repeat constructor. }
  split; [exact H|]. split; [reflexivity|].
  exact (@Upsert_needs_database_name unit demo.Sess nat nat nat
           demo.healthy demo.Assing demo.Parse_fails demo.mongo
           {| UpsertRequest_Table := "T";
              UpsertRequest_Records := [1; 2; 3] |}
           [1; 2; 3] _ (fresh [7]) H eq_refl).
Defined.

(** X18 on the concrete deployment. *)
Lemma Upsert_of_no_record_still_writes_witness :
  demo.Parse (dns demo.mongo) = inl {| Database := "db" |}
  /\ Mongo_Upsert (drv := demo.healthy) (Op := nat) demo.Assing demo.Parse
       demo.mongo
       {| UpsertRequest_Table := "T"; UpsertRequest_Records := [] |}
       (fresh [7])
     = (Ok tt,
        {| session := [7]; trace := [EvBulkWrite "db" "T" []]; done := [] |}).
Proof.
  split; [reflexivity|].
  exact (@Upsert_of_no_record_still_writes unit demo.Sess nat nat nat
           demo.healthy demo.Assing demo.Parse demo.mongo "T"
           {| Database := "db" |} (fresh [7]) eq_refl).
Defined.

(* ===================================================================== *)
(** ** The script [list-pkgs.sh] *)

Section ScriptFacts.
Import list_pkgs.
Local Open Scope string_scope.

(** A literal prefix of the expression matches exactly the lines that
    start with it. *)
Lemma match_here_literal (p : string) (re : list atom) (line rest : string) :
  match_here (literal p ++ re)%list line = Some rest ->
  exists line', line = p ++ line' /\ match_here re line' = Some rest.
Proof.
  revert line. induction p as [|c p IH]; intros line H.
  - now exists line.
  - cbn in H. destruct line as [|c' line]; [discriminate|].
    destruct (Ascii.eqb_spec c c') as [<-|Hne]; [|discriminate].
    destruct (IH line H) as [line' [-> Hm]]. now exists line'.
Qed.



(** X21.  Running the script's [sed] on its own output changes nothing:
    a rewritten line starts with a dot and no longer matches. *)
Theorem sed_idempotent (line : string) : sed (sed line) = sed line.
Proof.
  unfold sed at 2 3. destruct (match_here module_re line) as [rest|] eqn:Hm.
  - reflexivity.
  - unfold sed. now rewrite Hm.
Qed.

(** X22.  For a tree whose packages all lie under the module path, the
    script prints each package as a dot followed by its path below the
    module, in the order [go list] gave them; and without an argument it
    lists the current directory. *)
Theorem list_pkgs_relative (go_list : string -> list string) (arg1 : string)
    (below : list string) :
  go_list (directory arg1 ++ "/...")
  = map (fun rest => "github.com/alpine-hodler/gidari" ++ rest) below ->
  list_pkgs go_list arg1 = map (fun rest => "." ++ rest) below
  /\ list_pkgs go_list "" = list_pkgs go_list ".".
Proof.
  intros H. split; [|reflexivity].
  unfold list_pkgs. rewrite H, map_map.
  apply map_ext. intros rest. reflexivity.
Qed.

End ScriptFacts.

(** X22 on a tree of three packages, listed without an argument. *)
Lemma list_pkgs_relative_witness :
  demo.go_list (list_pkgs.directory "" ++ "/...")%string
  = map (fun rest => ("github.com/alpine-hodler/gidari" ++ rest)%string)
        [""; "/internal/storage"; "/tools"]
  /\ list_pkgs.list_pkgs demo.go_list ""
     = [("." ++ "")%string; ("." ++ "/internal/storage")%string;
        ("." ++ "/tools")%string]
  /\ list_pkgs.list_pkgs demo.go_list "" = list_pkgs.list_pkgs demo.go_list ".".
Proof.
  split; [reflexivity|].
  exact (list_pkgs_relative demo.go_list ""
           [""; "/internal/storage"; "/tools"]%string eq_refl).
Defined.
